(** * The content block script [blocks/mycard/mycard.js]

    A shallow embedding of the four functions of the script
    ([renderContentBlock], [showTemporaryMessage], [fetchContentForBlock]
    and the body of the [DOMContentLoaded] listener) over an explicit
    browser state, and the properties the specification states of them.

    The state holds what the script can reach:
    - the heap of elements, each with its id, its [data-block-id], its
      text, the two style properties the script writes, its parent and its
      event listeners; a reference is an index into the heap;
    - the console, the page location, the body;
    - the timer queue with a clock that counts milliseconds;
    - the promises, each pending or settled, with the reactions that wait
      for it.

    Closures are defunctionalised: every arrow function of the source is a
    constructor that carries the variables the closure captures.  A call
    that can throw returns an [Outcome] next to the state.  Reactions of a
    promise run when the promise settles (the microtask queue is not
    modelled apart from that), and events other than timers (a click, the
    end of a CSS transition) are dispatched from outside. *)

From stdpp Require Import base strings list gmap.
From Stdlib Require Import Ascii Lia.

Open Scope string_scope.
Open Scope list_scope.

(** ** JavaScript values held by a content payload *)

Inductive JsVal :=
  | undefined
  | null
  | str (s : string).

(** Truthiness, for the values above: only a non-empty string is truthy. *)
Definition truthy (v : JsVal) : bool :=
  match v with
  | str s => negb (String.eqb s "")
  | _ => false
  end.

(** The abstract operation ToString (template literals, [+] on strings). *)
Definition ToString (v : JsVal) : string :=
  match v with
  | undefined => "undefined"
  | null => "null"
  | str s => s
  end.

(** [{ title, description, buttonText?, buttonLink? }]; a property the
    literal does not write reads as [undefined]. *)
Record ContentPayload := mkPayload {
  p_title : JsVal;
  p_description : JsVal;
  p_buttonText : JsVal;
  p_buttonLink : JsVal
}.

(** The value the fetch resolves with.  [mockContentData[blockId]] is a
    property read on a plain object: it finds the own properties of the
    literal and, after them, the properties of [Object.prototype]. *)
Inductive Data :=
  | Payload (p : ContentPayload)
  | Inherited (key : string).

Definition title (d : Data) : JsVal :=
  match d with Payload p => p_title p | Inherited _ => undefined end.
Definition description (d : Data) : JsVal :=
  match d with Payload p => p_description p | Inherited _ => undefined end.
Definition buttonText (d : Data) : JsVal :=
  match d with Payload p => p_buttonText p | Inherited _ => undefined end.
Definition buttonLink (d : Data) : JsVal :=
  match d with Payload p => p_buttonLink p | Inherited _ => undefined end.

(** ** The mock content (lines 126-150) *)

Definition mockContentData : gmap string ContentPayload :=
  list_to_map [
    ("homepage-hero-block",
      mkPayload (str "Accelerate Your Digital Experience")
        (str "Leverage Adobe EDS components for rapid development and consistent brand presence across all your digital touchpoints. From design to deployment, streamline your workflow.")
        (str "Discover Our Components") (str "/components"));
    ("about-us-intro-block",
      mkPayload (str "Our Story: Innovation at Core")
        (str "Learn about our journey in pioneering digital solutions that empower businesses worldwide. We believe in crafting exceptional user experiences and solutions.")
        (str "Meet the Team") (str "/about"));
    ("contact-promo-block",
      mkPayload (str "Ready to Transform?")
        (str "Connect with our experts to discuss how our EDS can elevate your digital strategy. We're here to help you succeed, every step of the way.")
        (str "Contact Us Today") (str "/contact"));
    ("no-button-info-block",
      mkPayload (str "Important Update")
        (str "This content block provides vital updates and does not require a call-to-action button, focusing purely on conveying information.")
        undefined undefined)
  ].

(** The property names of [Object.prototype], the prototype of every object
    literal.  Each of them holds a function, except [__proto__], whose getter
    returns [Object.prototype] itself: all are truthy. *)
Definition ObjectPrototype : list string :=
  [ "constructor"; "__defineGetter__"; "__defineSetter__"; "hasOwnProperty";
    "__lookupGetter__"; "__lookupSetter__"; "isPrototypeOf";
    "propertyIsEnumerable"; "toString"; "valueOf"; "__proto__";
    "toLocaleString" ].

(** [mockContentData[blockId]]; [None] is [undefined]. *)
Definition get_mockContentData (blockId : string) : option Data :=
  match mockContentData !! blockId with
  | Some p => Some (Payload p)
  | None =>
      if bool_decide (blockId ∈ ObjectPrototype) then Some (Inherited blockId)
      else None
  end.

Definition fallbackPayload (blockId : string) : ContentPayload :=
  mkPayload
    (str ("Content Not Found (ID: " +:+ blockId +:+ ")"))
    (str "The content for this specific block could not be loaded. Please verify the block ID and content source configuration.")
    null
    undefined.

(** Line 156: [mockContentData[blockId] || { ... }].  Every value the
    lookup can find is an object or a function, hence truthy. *)
Definition resolvedData (blockId : string) : Data :=
  match get_mockContentData blockId with
  | Some d => d
  | None => Payload (fallbackPayload blockId)
  end.

(** ** The browser state *)

(** [parentNode]: [null], the document, or an element of the heap. *)
Inductive Parent :=
  | PNull
  | PDocument
  | PElement (r : nat).

Inductive EventType := Click | TransitionEnd.

(** The two listeners of the script, with what they capture:
    line 50 captures [data]; line 101 captures [messageBox]. *)
Inductive Handler :=
  | ClickHandler (data : Data)
  | RemoveMessageBox (messageBox : nat).

(** An element, with the attributes and properties the script reads or
    writes.  [textContent] is the element's own text; the script only ever
    assigns it. *)
Record Element := mkElement {
  el_id : string;
  el_blockId : option string;
  textContent : string;
  display : string;
  opacity : string;
  parentNode : Parent;
  listeners : list (EventType * Handler)
}.

Inductive Level := LLog | LWarn | LError.

(** One console call: its level and its arguments. *)
Definition LogEntry : Type := Level * list string.

Inductive Exn := TypeError.

Inductive Outcome :=
  | Normal
  | Threw (e : Exn).

(** The three constants of lines 7-9; [None] is the [null] that
    [getElementById] returns when no element has the id. *)
Record Targets := mkTargets {
  blockTitleElement : option nat;
  blockDescriptionElement : option nat;
  blockButtonElement : option nat
}.

(** Timer callbacks: line 93, line 98 (both capture [messageBox]) and
    line 154 (captures [resolve] of the promise and [blockId]). *)
Inductive Callback :=
  | FadeIn (messageBox : nat)
  | FadeOut (messageBox : nat)
  | ResolveFetch (promise : nat) (blockId : string).

Inductive PromiseState :=
  | Pending
  | Fulfilled (d : Data)
  | Rejected (e : Exn).

(** Lines 179-190, [.then(...).catch(...)]: captures the targets that
    [renderContentBlock] closes over, and [blockId]. *)
Inductive Reaction :=
  | ThenRenderCatch (tg : Targets) (blockId : string).

Record Promise := mkPromise {
  pstate : PromiseState;
  reactions : list Reaction
}.

(** The page and what the script has pending.  An element is referred to
    by its index in [heap], which holds every element ever created, in or
    out of the document.  [body] is the element that [document.body]
    (line 90) denotes.  It is kept as it is throughout: the model is that
    of pages whose [<body>] is none of the three targets and no child of
    one, the pages on which no statement of the script replaces or
    removes [<body>]. *)
Record State := mkState {
  heap : list Element;
  body : nat;
  location : string;
  console : list LogEntry;
  now : nat;
  timers : list (nat * Callback);
  promises : list Promise
}.

#[global] Instance Parent_eq_dec : EqDecision Parent.
Proof. solve_decision. Defined.
#[global] Instance EventType_eq_dec : EqDecision EventType.
Proof. solve_decision. Defined.

(** *** Field updates *)

Definition with_heap (h : list Element) (st : State) : State :=
  mkState h (body st) (location st) (console st) (now st) (timers st) (promises st).
Definition with_console (c : list LogEntry) (st : State) : State :=
  mkState (heap st) (body st) (location st) c (now st) (timers st) (promises st).
Definition with_now (n : nat) (st : State) : State :=
  mkState (heap st) (body st) (location st) (console st) n (timers st) (promises st).
Definition with_timers (t : list (nat * Callback)) (st : State) : State :=
  mkState (heap st) (body st) (location st) (console st) (now st) t (promises st).
Definition with_promises (p : list Promise) (st : State) : State :=
  mkState (heap st) (body st) (location st) (console st) (now st) (timers st) p.

Definition set_text (s : string) (e : Element) : Element :=
  mkElement (el_id e) (el_blockId e) s (display e) (opacity e) (parentNode e) (listeners e).
Definition set_disp (s : string) (e : Element) : Element :=
  mkElement (el_id e) (el_blockId e) (textContent e) s (opacity e) (parentNode e) (listeners e).
Definition set_opac (s : string) (e : Element) : Element :=
  mkElement (el_id e) (el_blockId e) (textContent e) (display e) s (parentNode e) (listeners e).
Definition set_parent (p : Parent) (e : Element) : Element :=
  mkElement (el_id e) (el_blockId e) (textContent e) (display e) (opacity e) p (listeners e).
Definition set_listeners (l : list (EventType * Handler)) (e : Element) : Element :=
  mkElement (el_id e) (el_blockId e) (textContent e) (display e) (opacity e) (parentNode e) l.

(** ** DOM and console primitives *)

Definition console_log (args : list string) (st : State) : State :=
  with_console (console st ++ [(LLog, args)]) st.
Definition console_warn (args : list string) (st : State) : State :=
  with_console (console st ++ [(LWarn, args)]) st.
Definition console_error (args : list string) (st : State) : State :=
  with_console (console st ++ [(LError, args)]) st.

(** [el.textContent = s]: the children of [el] are removed (their
    [parentNode] becomes [null]) and [s] is its text. *)
Definition set_textContent (el : nat) (s : string) (st : State) : State :=
  with_heap
    (imap (λ i e,
       if bool_decide (i = el) then set_text s e
       else if bool_decide (parentNode e = PElement el) then set_parent PNull e
       else e) (heap st)) st.

(** [el.style.display = s] *)
Definition set_display (el : nat) (s : string) (st : State) : State :=
  with_heap (alter (set_disp s) el (heap st)) st.

(** [el.style.opacity = s] *)
Definition set_opacity (el : nat) (s : string) (st : State) : State :=
  with_heap (alter (set_opac s) el (heap st)) st.

Definition emptyElement : Element :=
  mkElement "" None "" "" "" PNull [].

(** [document.createElement('div')]: a fresh element, in no tree. *)
Definition createElement (st : State) : State * nat :=
  (with_heap (heap st ++ [emptyElement]) st, length (heap st)).

(** [el.cloneNode(true)]: a fresh element with the attributes, the style
    and the text of [el]; listeners are not copied and the copy has no
    parent.  (When the script clones the button it has just assigned its
    [textContent], so the button has no element children to copy.) *)
Definition cloneNode (el : nat) (st : State) : State * nat :=
  let e := default emptyElement (heap st !! el) in
  (with_heap (heap st ++ [set_listeners [] (set_parent PNull e)]) st,
   length (heap st)).

(** [el.parentNode] *)
Definition get_parentNode (el : nat) (st : State) : Parent :=
  match heap st !! el with
  | Some e => parentNode e
  | None => PNull
  end.

(** [parent.replaceChild(newChild, oldChild)], for [parent] the parent of
    [oldChild] and a [newChild] that is in no tree. *)
Definition replaceChild (parent : Parent) (newChild oldChild : nat) (st : State) : State :=
  with_heap
    (alter (set_parent PNull) oldChild
       (alter (set_parent parent) newChild (heap st))) st.

(** [parent.appendChild(child)], for a [child] that is in no tree. *)
Definition appendChild (parent child : nat) (st : State) : State :=
  with_heap (alter (set_parent (PElement parent)) child (heap st)) st.

(** [el.remove()] *)
Definition remove (el : nat) (st : State) : State :=
  with_heap (alter (set_parent PNull) el (heap st)) st.

(** [el.addEventListener(ev, h)] *)
Definition addEventListener (el : nat) (ev : EventType) (h : Handler) (st : State) : State :=
  with_heap (alter (λ e, set_listeners (listeners e ++ [(ev, h)]) e) el (heap st)) st.

(** [setTimeout(cb, delay)] *)
Definition setTimeout (cb : Callback) (delay : nat) (st : State) : State :=
  with_timers (timers st ++ [(now st + delay, cb)]) st.

(** Whether a node with parent [p] is in the document: the chain of
    parents reaches the document, in at most [fuel] steps. *)
Fixpoint in_document (fuel : nat) (h : list Element) (p : Parent) : bool :=
  match p with
  | PDocument => true
  | PNull => false
  | PElement r =>
      match fuel with
      | 0 => false
      | S fuel' =>
          match h !! r with
          | Some e => in_document fuel' h (parentNode e)
          | None => false
          end
      end
  end.

(** [document.getElementById(id)].  Ids are unique in a document, so the
    order of the search does not matter; the heap order is used.  No chain
    of parents is longer than the heap. *)
Definition getElementById (id : string) (st : State) : option nat :=
  fst <$> list_find
    (λ e, el_id e = id ∧ in_document (length (heap st)) (heap st) (parentNode e) = true)
    (heap st).

(** [el.dataset.blockId]: the value of the attribute [data-block-id]. *)
Definition dataset_blockId (el : nat) (st : State) : JsVal :=
  match heap st !! el with
  | Some e => match el_blockId e with Some s => str s | None => undefined end
  | None => undefined
  end.

(** ** The script *)

Definition dq : string := String "034"%char "".

Definition defaultTitle : string := "Default Component Title".
Definition defaultDescription : string := "Default description text for the component.".
Definition titleWarning : string :=
  "Content Block: Title element or content data.title not found. Using default.".
Definition descriptionWarning : string :=
  "Content Block: Description element or content data.description not found. Using default.".

(** Lines 23-28 and 31-36: the same statement, once for the title and once
    for the description. *)
Definition renderText (target : option nat) (v : JsVal) (warning dflt : string)
    (st : State) : State :=
  match target with
  | Some el =>
      if truthy v then set_textContent el (ToString v) st
      else set_textContent el dflt (console_warn [warning] st)
  | None => console_warn [warning] st
  end.

(** Lines 39-62. *)
Definition renderButton (tg : Targets) (data : Data) (st : State) : State * Outcome :=
  match blockButtonElement tg with
  | Some button =>
      if truthy (buttonText data) then
        let st := set_textContent button (ToString (buttonText data)) st in
        let st := set_display button "block" st in
        let '(st, newButton) := cloneNode button st in
        match get_parentNode button st with
        | PNull => (st, Threw TypeError)
        | parent =>
            let st := replaceChild parent newButton button st in
            (addEventListener newButton Click (ClickHandler data) st, Normal)
        end
      else (set_display button "none" st, Normal)
  | None => (st, Normal)
  end.

(** Lines 21-63. *)
Definition renderContentBlock (tg : Targets) (data : Data) (st : State) : State * Outcome :=
  let st := renderText (blockTitleElement tg) (title data) titleWarning defaultTitle st in
  let st := renderText (blockDescriptionElement tg) (description data)
              descriptionWarning defaultDescription st in
  renderButton tg data st.

(** Lines 71-103.  Of the style text only [opacity: 0] is kept. *)
Definition showTemporaryMessage (message : string) (st : State) : State :=
  let '(st, messageBox) := createElement st in
  let st := set_opacity messageBox "0" st in
  let st := set_textContent messageBox message st in
  let st := appendChild (body st) messageBox st in
  let st := setTimeout (FadeIn messageBox) 10 st in
  setTimeout (FadeOut messageBox) 2000 st.

Definition clickMessage (data : Data) : string :=
  "Action: " +:+ dq +:+ ToString (buttonText data) +:+ dq +:+ " clicked!".

(** The bodies of the listeners: lines 50-58 and line 101. *)
Definition run_handler (h : Handler) (st : State) : State :=
  match h with
  | ClickHandler data =>
      let st :=
        if truthy (buttonLink data)
        then console_log ["Content Block: Navigating to:"; ToString (buttonLink data)] st
        else st in
      showTemporaryMessage (clickMessage data) st
  | RemoveMessageBox messageBox => remove messageBox st
  end.

(** An event of type [ev] fired at [el]: its listeners for [ev] run, in
    the order they were added. *)
Definition dispatchEvent (ev : EventType) (el : nat) (st : State) : State :=
  foldl (λ s l, run_handler (snd l) s) st
    (filter (λ l, fst l = ev) (default [] (listeners <$> heap st !! el))).

(** Lines 120-164: the promise is created pending, and the timer of line
    154 is the only thing that settles it. *)
Definition fetchContentForBlock (blockId : string) (st : State) : State * nat :=
  let st := console_log
    ["Content Block: Simulating content fetch for block ID: " +:+ dq +:+ blockId +:+ dq] st in
  let promise := length (promises st) in
  let st := with_promises (promises st ++ [mkPromise Pending []]) st in
  (setTimeout (ResolveFetch promise blockId) 500 st, promise).

Definition errorPayload : Data :=
  Payload (mkPayload (str "Error Loading Content")
    (str "An unexpected error occurred while fetching the content for this block. Please contact support.")
    null undefined).

(** Lines 182-190. *)
Definition catchHandler (tg : Targets) (blockId : string) (error : Exn) (st : State) : State :=
  let st := console_error
    ["Content Block: Failed to load content for block:"; blockId; "TypeError"] st in
  fst (renderContentBlock tg errorPayload st).

(** Lines 179-190: what runs once the promise has settled.  A throw in
    the [then] callback rejects the promise [then] returns, which the
    [catch] handles. *)
Definition run_reaction (r : Reaction) (settled : PromiseState) (st : State) : State :=
  match r, settled with
  | ThenRenderCatch tg blockId, Fulfilled contentData =>
      match renderContentBlock tg contentData st with
      | (st, Normal) => st
      | (st, Threw error) => catchHandler tg blockId error st
      end
  | ThenRenderCatch tg blockId, Rejected error => catchHandler tg blockId error st
  | _, Pending => st
  end.

(** [promise.then(...).catch(...)] *)
Definition then_catch (promise : nat) (r : Reaction) (st : State) : State :=
  match promises st !! promise with
  | Some p =>
      match pstate p with
      | Pending =>
          with_promises
            (<[promise := mkPromise Pending (reactions p ++ [r])]> (promises st)) st
      | settled => run_reaction r settled st
      end
  | None => st
  end.

(** [resolve(data)]: settles a pending promise and runs its reactions. *)
Definition resolve (promise : nat) (data : Data) (st : State) : State :=
  match promises st !! promise with
  | Some p =>
      match pstate p with
      | Pending =>
          foldl (λ s r, run_reaction r (Fulfilled data) s)
            (with_promises (<[promise := mkPromise (Fulfilled data) []]> (promises st)) st)
            (reactions p)
      | _ => st
      end
  | None => st
  end.

(** The bodies of the timer callbacks: lines 94, 99-101 and 156-161. *)
Definition run_callback (cb : Callback) (st : State) : State :=
  match cb with
  | FadeIn messageBox => set_opacity messageBox "1" st
  | FadeOut messageBox =>
      let st := set_opacity messageBox "0" st in
      addEventListener messageBox TransitionEnd (RemoveMessageBox messageBox) st
  | ResolveFetch promise blockId => resolve promise (resolvedData blockId) st
  end.

(** A timer is due at time [t] when its delay has elapsed. *)
Definition due (t : nat) (tm : nat * Callback) : Prop := (fst tm ≤ t)%nat.

#[global] Instance due_dec t tm : Decision (due t tm).
Proof. unfold due. apply _. Defined.

(** The due timers run, in the order they were set. *)
Definition run_timers (l : list (nat * Callback)) (st : State) : State :=
  foldl (λ s tm, run_callback (snd tm) s) st l.

(** One millisecond passes: the timers that are now due leave the queue
    and run. *)
Definition tick (st : State) : State :=
  let t := S (now st) in
  run_timers (filter (due t) (timers st))
    (with_timers (filter (λ tm, ¬ due t tm) (timers st)) (with_now t st)).

(** [ms] milliseconds pass. *)
Definition advance (ms : nat) (st : State) : State := Nat.iter ms tick st.

(** The message of line 192. *)
Definition containerError : string :=
  "Content Block: Main container element with ID 'edsContentBlock' not found. Ensure your EDS template renders this element.".

(** The targets as lines 7-9 find them in [st]. *)
Definition capturedTargets (st : State) : Targets :=
  mkTargets (getElementById "blockTitle" st)
    (getElementById "blockDescription" st)
    (getElementById "blockButton" st).

(** Lines 3-9 and 169-193: the [DOMContentLoaded] listener. *)
Definition init (st : State) : State :=
  let tg := capturedTargets st in
  match getElementById "edsContentBlock" st with
  | Some mainContentBlockContainer =>
      let blockId :=
        if truthy (dataset_blockId mainContentBlockContainer st)
        then ToString (dataset_blockId mainContentBlockContainer st)
        else "homepage-hero-block" in
      let '(st, promise) := fetchContentForBlock blockId st in
      then_catch promise (ThenRenderCatch tg blockId) st
  | None => console_error [containerError] st
  end.

(** * Vocabulary of the properties *)

(** ** Elements and targets *)

(** The elements from a node with parent [p] up to the document. *)
Inductive parent_chain (h : list Element) : Parent → list nat → Prop :=
  | chain_document : parent_chain h PDocument []
  | chain_element r e l :
      h !! r = Some e → parent_chain h (parentNode e) l →
      parent_chain h (PElement r) (r :: l).

(** The text of element [r]. *)
Definition text_at (st : State) (r : nat) : option string :=
  textContent <$> heap st !! r.

(** What an element looks like and reacts to, its text apart: its id, its
    style and its listeners. *)
Definition look (e : Element) : string * string * string * list (EventType * Handler) :=
  (el_id e, display e, opacity e, listeners e).

(** An element with its parent forgotten. *)
Definition forget_parent (e : Element) : Element := set_parent PNull e.

(** Two states agree on element [i] up to its parent. *)
Definition same_at (i : nat) (st st' : State) : Prop :=
  forget_parent <$> heap st !! i = forget_parent <$> heap st' !! i.

(** A target, when it exists, is an element of the heap with the id that
    lines 7-9 looked up. *)
Definition has_id (st : State) (target : option nat) (id : string) : Prop :=
  ∀ r, target = Some r → ∃ e, heap st !! r = Some e ∧ el_id e = id.

Definition targets_ok (tg : Targets) (st : State) : Prop :=
  has_id st (blockTitleElement tg) "blockTitle" ∧
  has_id st (blockDescriptionElement tg) "blockDescription" ∧
  has_id st (blockButtonElement tg) "blockButton".

(** [r] is none of the three targets. *)
Definition avoids (tg : Targets) (r : nat) : Prop :=
  blockTitleElement tg ≠ Some r ∧ blockDescriptionElement tg ≠ Some r ∧
  blockButtonElement tg ≠ Some r.

(** Rendering touches the heap and the console only: the rest of the
    state is the same in [st] and [st']. *)
Definition same_env (st st' : State) : Prop :=
  body st' = body st ∧ location st' = location st ∧ now st' = now st ∧
  timers st' = timers st ∧ promises st' = promises st.

(** ** Initialisation *)

(** What [init] does once it has the container and has chosen [blockId]. *)
Definition fetchAndRender (blockId : string) (st : State) : State :=
  let '(st1, promise) := fetchContentForBlock blockId st in
  then_catch promise (ThenRenderCatch (capturedTargets st) blockId) st1.

(** ** The timer queue *)

(** The timers of a queue that run in the tick from [ms] to [ms + 1]
    milliseconds after time [t0]. *)
Definition fires (t0 ms : nat) (tm : nat * Callback) : Prop :=
  due (t0 + S ms) tm ∧ (ms = 0 ∨ ¬ due (t0 + ms) tm).

#[global] Instance fires_dec t0 ms tm : Decision (fires t0 ms tm).
Proof. unfold fires. apply _. Defined.

(** The fetch timers of the queue belong to promises that exist. *)
Definition promise_timers_ok (st : State) : Prop :=
  ∀ t q id, (t, ResolveFetch q id) ∈ timers st → q < length (promises st).

(** ** Notifications *)

(** The overlay as [showTemporaryMessage] leaves it in the document. *)
Definition messageBoxElement (message : string) (body : nat) : Element :=
  mkElement "" None message "" "0" (PElement body) [].

(** The pending renders of [st] stay clear of [i] and of the parent of [e]. *)
Definition renders_avoid (i : nat) (e : Element) (st : State) : Prop :=
  ∀ q pr tg blockId,
    promises st !! q = Some pr → ThenRenderCatch tg blockId ∈ reactions pr →
    avoids tg i ∧ ∀ r, parentNode e = PElement r → avoids tg r.

(** The overlay [messageBox] is [e], and no pending render reaches it or
    the parent it was given. *)
Definition overlay_is (messageBox : nat) (shown e : Element) (s : State) : Prop :=
  heap s !! messageBox = Some e ∧ renders_avoid messageBox shown s.

(** The state in which a notification is shown: the fade timers of the
    queue belong to overlays that exist, and the targets of the pending
    renders are elements of the heap other than the body. *)
Definition overlay_ok (st : State) : Prop :=
  (∀ t b, (t, FadeIn b) ∈ timers st ∨ (t, FadeOut b) ∈ timers st →
     b < length (heap st)) ∧
  (∀ q pr tg blockId r,
     promises st !! q = Some pr → ThenRenderCatch tg blockId ∈ reactions pr →
     ¬ avoids tg r → r < length (heap st) ∧ r ≠ body st).

(** ** A sample page *)

Definition sampleElement (id : string) (blockId : option string) (parent : Parent) : Element :=
  mkElement id blockId "" "" "" parent [].

(** The page [html > body > div#edsContentBlock > (h2#blockTitle,
    p#blockDescription, button#blockButton)] as the parser leaves it; the
    argument is the [data-block-id] attribute of the container. *)
Definition samplePage (blockId : option string) : State :=
  mkState
    [ sampleElement "" None PDocument;
      sampleElement "" None (PElement 0);
      sampleElement "edsContentBlock" blockId (PElement 1);
      sampleElement "blockTitle" None (PElement 2);
      sampleElement "blockDescription" None (PElement 2);
      sampleElement "blockButton" None (PElement 2) ]
    1 "/" [] 0 [] [].

(** The same page without the container and its content. *)
Definition emptyPage : State :=
  mkState [ sampleElement "" None PDocument; sampleElement "" None (PElement 0) ]
    1 "/" [] 0 [] [].

(** The targets of [samplePage]. *)
Definition sampleTargets : Targets := mkTargets (Some 3) (Some 4) (Some 5).

Definition samplePayload (title buttonText : string) : Data :=
  Payload (mkPayload (str title) (str "D") (str buttonText) (str "/x")).

(** ** Vocabulary of the further properties *)

(** The sample page with the button inside the title:
    [div#edsContentBlock > (h2#blockTitle > button#blockButton,
    p#blockDescription)]. *)
Definition nestedPage (blockId : option string) : State :=
  mkState
    [ sampleElement "" None PDocument;
      sampleElement "" None (PElement 0);
      sampleElement "edsContentBlock" blockId (PElement 1);
      sampleElement "blockTitle" None (PElement 2);
      sampleElement "blockDescription" None (PElement 2);
      sampleElement "blockButton" None (PElement 3) ]
    1 "/" [] 0 [] [].

(** The arguments of the [console.error] of line 183. *)
Definition fetchError (blockId : string) : LogEntry :=
  (LError, ["Content Block: Failed to load content for block:"; blockId; "TypeError"]).

(** The identifier that line 175 chooses for the container [c]. *)
Definition chosenBlockId (c : nat) (st : State) : string :=
  if truthy (dataset_blockId c st) then ToString (dataset_blockId c st)
  else "homepage-hero-block".

(** The [console.log] of line 121. *)
Definition fetchLog (blockId : string) : LogEntry :=
  (LLog, ["Content Block: Simulating content fetch for block ID: "
            +:+ dq +:+ blockId +:+ dq]).

(** The page [st] at the moment the fetch for [blockId] is fulfilled,
    before the reaction of lines 179-190 runs. *)
Definition loadedPage (blockId : string) (st : State) : State :=
  mkState (heap st) (body st) (location st)
    (console st ++ [fetchLog blockId])
    (now st + 500) []
    (promises st ++ [mkPromise (Fulfilled (resolvedData blockId)) []]).

(** Every parent that is an element is an element of the heap. *)
Definition parents_in_heap (st : State) : Prop :=
  ∀ i e r, heap st !! i = Some e → parentNode e = PElement r → r < length (heap st).

(** [e'] is [e] later on: the same id and [data-block-id], the same
    parent unless it was taken out of its parent, and the listeners it
    had, followed by those added since. *)
Definition keeps (e e' : Element) : Prop :=
  el_id e' = el_id e ∧ el_blockId e' = el_blockId e ∧
  (parentNode e' = parentNode e ∨ parentNode e' = PNull) ∧
  listeners e `prefix_of` listeners e'.

(** Every element of [st] is still in the heap of [st'], and [keeps] what
    it had. *)
Definition heap_keeps (st st' : State) : Prop :=
  ∀ i e, heap st !! i = Some e → ∃ e', heap st' !! i = Some e' ∧ keeps e e'.

(** The element [i] is in the document of [st]. *)
Definition in_doc (st : State) (i : nat) : Prop :=
  ∃ e l, heap st !! i = Some e ∧ parent_chain (heap st) (parentNode e) l.

(** What lines 23-28 (or 31-36) do to the element [e] at index [i], for
    the target [target] and the text [s] they assign. *)
Definition textStep (target : option nat) (s : string) (i : nat) (e : Element) : Element :=
  match target with
  | Some el =>
      if bool_decide (i = el) then set_text s e
      else if bool_decide (parentNode e = PElement el) then set_parent PNull e
      else e
  | None => e
  end.

(** The text that lines 23-28 (or 31-36) assign. *)
Definition textOf (v : JsVal) (dflt : string) : string :=
  if truthy v then ToString v else dflt.

(** * Properties *)

(** ** The mock content and the property read *)

Lemma mockContentData_keys :
  dom mockContentData =
    ({[ "homepage-hero-block"; "about-us-intro-block";
        "contact-promo-block"; "no-button-info-block" ]} : gset string).
Proof.
  unfold mockContentData. rewrite dom_list_to_map_L. simpl. set_solver.
Qed.

Lemma ObjectPrototype_not_own k :
  k ∈ ObjectPrototype → mockContentData !! k = None.
Proof.
  intros Hk. apply not_elem_of_dom. rewrite mockContentData_keys.
  unfold ObjectPrototype in Hk.
  rewrite !elem_of_cons, elem_of_nil in Hk.
  rewrite !elem_of_union, !elem_of_singleton.
  intros Hown. repeat destruct Hk as [Hk|Hk]; try done;
    subst k; repeat destruct Hown as [Hown|Hown]; discriminate.
Qed.

Lemma resolvedData_own blockId p :
  mockContentData !! blockId = Some p → resolvedData blockId = Payload p.
Proof. intros H. unfold resolvedData, get_mockContentData. by rewrite H. Qed.

Lemma resolvedData_inherited k :
  k ∈ ObjectPrototype → resolvedData k = Inherited k.
Proof.
  intros Hk. unfold resolvedData, get_mockContentData.
  rewrite (ObjectPrototype_not_own k Hk). by rewrite bool_decide_eq_true_2.
Qed.

Lemma resolvedData_fallback X :
  mockContentData !! X = None → X ∉ ObjectPrototype →
  resolvedData X = Payload (fallbackPayload X).
Proof.
  intros H1 H2. unfold resolvedData, get_mockContentData.
  rewrite H1. by rewrite bool_decide_eq_false_2.
Qed.

(** ** Elements up to their parent *)

Section heap_lookup.
Implicit Types (st : State) (e : Element) (i el : nat) (s : string).

Lemma lookup_set_textContent el s st i :
  heap (set_textContent el s st) !! i =
    (λ e, if bool_decide (i = el) then set_text s e
          else if bool_decide (parentNode e = PElement el) then set_parent PNull e
          else e) <$> heap st !! i.
Proof. apply list_lookup_imap. Qed.

Lemma lookup_set_textContent_eq el s st :
  heap (set_textContent el s st) !! el = set_text s <$> heap st !! el.
Proof.
  rewrite lookup_set_textContent. destruct (heap st !! el); simpl; [|done].
  by rewrite bool_decide_eq_true_2.
Qed.

Lemma lookup_set_textContent_ne el s st i :
  i ≠ el →
  forget_parent <$> heap (set_textContent el s st) !! i = forget_parent <$> heap st !! i.
Proof.
  intros Hne. rewrite lookup_set_textContent.
  destruct (heap st !! i) as [e|]; simpl; [|done].
  rewrite bool_decide_eq_false_2 by done. by case_bool_decide.
Qed.

Lemma lookup_set_textContent_frame el s st i e :
  i ≠ el → heap st !! i = Some e → parentNode e ≠ PElement el →
  heap (set_textContent el s st) !! i = Some e.
Proof.
  intros Hne He Hp. rewrite lookup_set_textContent, He. simpl.
  rewrite bool_decide_eq_false_2 by done. by rewrite bool_decide_eq_false_2.
Qed.

Lemma length_set_textContent el s st :
  length (heap (set_textContent el s st)) = length (heap st).
Proof. apply length_imap. Qed.

Lemma lookup_set_display el s st i :
  heap (set_display el s st) !! i =
    if decide (el = i) then set_disp s <$> heap st !! el else heap st !! i.
Proof. apply list_lookup_alter. Qed.

Lemma lookup_set_opacity el s st i :
  heap (set_opacity el s st) !! i =
    if decide (el = i) then set_opac s <$> heap st !! el else heap st !! i.
Proof. apply list_lookup_alter. Qed.

Lemma lookup_addEventListener el ev h st i :
  heap (addEventListener el ev h st) !! i =
    if decide (el = i)
    then (λ e, set_listeners (listeners e ++ [(ev, h)]) e) <$> heap st !! el
    else heap st !! i.
Proof. apply list_lookup_alter. Qed.

Lemma lookup_remove el st i :
  heap (remove el st) !! i =
    if decide (el = i) then set_parent PNull <$> heap st !! el else heap st !! i.
Proof. apply list_lookup_alter. Qed.

Lemma lookup_appendChild p el st i :
  heap (appendChild p el st) !! i =
    if decide (el = i) then set_parent (PElement p) <$> heap st !! el else heap st !! i.
Proof. apply list_lookup_alter. Qed.

Lemma lookup_replaceChild p new old st i :
  new ≠ old →
  heap (replaceChild p new old st) !! i =
    if decide (old = i) then set_parent PNull <$> heap st !! old
    else if decide (new = i) then set_parent p <$> heap st !! new
    else heap st !! i.
Proof.
  intros Hne. unfold replaceChild. simpl. rewrite list_lookup_alter.
  destruct (decide (old = i)) as [->|].
  - by rewrite list_lookup_alter_ne.
  - apply list_lookup_alter.
Qed.

Lemma lookup_cloneNode_old el st i e :
  heap st !! i = Some e → heap (fst (cloneNode el st)) !! i = Some e.
Proof. intros H. simpl. by apply lookup_app_l_Some. Qed.

Lemma lookup_cloneNode_new el st e :
  heap st !! el = Some e →
  heap (fst (cloneNode el st)) !! length (heap st) =
    Some (set_listeners [] (set_parent PNull e)).
Proof.
  intros H. simpl. rewrite H. simpl.
  rewrite lookup_app_r by lia. by rewrite Nat.sub_diag.
Qed.
End heap_lookup.

(** ** The document *)

(** A chain of parents visits no element twice, so it is no longer than
    the heap: the fuel [getElementById] gives to [in_document] is enough. *)

Lemma parent_chain_unique h p l l' :
  parent_chain h p l → parent_chain h p l' → l = l'.
Proof.
  intros H. revert l'. induction H as [|r e l He _ IH]; intros l' H'.
  - by inversion H'.
  - inversion H' as [|r' e' l'' He' Hc]; subst.
    rewrite He in He'. injection He' as <-. f_equal. by apply IH.
Qed.

Lemma parent_chain_suffix h p l r :
  parent_chain h p l → r ∈ l →
  ∃ l', parent_chain h (PElement r) l' ∧ (length l' ≤ length l)%nat ∧ r ∈ l'.
Proof.
  induction 1 as [|r0 e l He Hc IH]; intros Hin.
  - by apply elem_of_nil in Hin.
  - apply elem_of_cons in Hin as [->|Hin].
    + exists (r0 :: l). split; [by econstructor|]. split; [done|]. by left.
    + destruct (IH Hin) as (l' & ? & ? & ?). exists l'. simpl. repeat split; try done. lia.
Qed.

Lemma parent_chain_NoDup h p l : parent_chain h p l → NoDup l.
Proof.
  induction 1 as [|r e l He Hc IH]; [constructor|].
  constructor; [|done]. intros Hin.
  destruct (parent_chain_suffix _ _ _ _ Hc Hin) as (l' & Hl' & Hlen & _).
  assert (parent_chain h (PElement r) (r :: l)) as Hrl by (by econstructor).
  pose proof (parent_chain_unique _ _ _ _ Hl' Hrl) as ->. simpl in Hlen. lia.
Qed.

Lemma parent_chain_bound h p l : parent_chain h p l → (length l ≤ length h)%nat.
Proof.
  intros Hc.
  assert (l ⊆+ seq 0 (length h)) as Hsub.
  { apply NoDup_submseteq; [by eapply parent_chain_NoDup|].
    intros x Hx. apply elem_of_seq. split; [lia|]. simpl.
    clear -Hc Hx. induction Hc as [|r e l He Hc IH]; [by apply elem_of_nil in Hx|].
    apply elem_of_cons in Hx as [->|Hx]; [by eapply lookup_lt_Some | by apply IH]. }
  apply submseteq_length in Hsub. by rewrite length_seq in Hsub.
Qed.

Lemma in_document_chain fuel h p :
  in_document fuel h p = true ↔ ∃ l, parent_chain h p l ∧ (length l ≤ fuel)%nat.
Proof.
  split.
  - revert p. induction fuel as [|fuel IH]; intros [| |r] H; simpl in H; try done.
    + exists []. split; [constructor | done].
    + exists []. split; [constructor | simpl; lia].
    + destruct (h !! r) as [e|] eqn:He; [|done].
      destruct (IH _ H) as (l & Hl & Hlen).
      exists (r :: l). split; [by econstructor | simpl; lia].
  - intros (l & Hl & Hlen). revert fuel Hlen.
    induction Hl as [|r e l He Hc IH]; intros fuel Hlen.
    + by destruct fuel.
    + destruct fuel as [|fuel]; simpl in *; [lia|]. rewrite He. apply IH. lia.
Qed.

Lemma in_document_enough_fuel fuel h p :
  in_document fuel h p = true → in_document (length h) h p = true.
Proof.
  intros (l & Hl & _)%in_document_chain. apply in_document_chain.
  exists l. split; [done|]. by eapply parent_chain_bound.
Qed.

(** [getElementById] finds nothing exactly when no element with the id
    has a chain of parents that reaches the document. *)
Lemma getElementById_None id st :
  getElementById id st = None ↔
  ∀ r e l, heap st !! r = Some e → el_id e = id →
           ¬ parent_chain (heap st) (parentNode e) l.
Proof.
  unfold getElementById. rewrite fmap_None, list_find_None, Forall_lookup.
  split.
  - intros H r e l He Hid Hl. apply (H r e He). split; [done|].
    apply in_document_chain. exists l. split; [done|].
    by eapply parent_chain_bound.
  - intros H r e He [Hid Hdoc].
    apply in_document_chain in Hdoc as (l & Hl & _). by apply (H r e l).
Qed.

(** ** The render targets *)

Lemma getElementById_Some id st r :
  getElementById id st = Some r →
  ∃ e, heap st !! r = Some e ∧ el_id e = id ∧
       in_document (length (heap st)) (heap st) (parentNode e) = true.
Proof.
  unfold getElementById. intros H.
  destruct (list_find _ _) as [[i e]|] eqn:Hf; simplify_eq/=.
  apply list_find_Some in Hf as (He & [Hid Hdoc] & _). eauto.
Qed.

Lemma getElementById_targets_ok st :
  targets_ok
    (mkTargets (getElementById "blockTitle" st)
       (getElementById "blockDescription" st)
       (getElementById "blockButton" st)) st.
Proof.
  repeat split; intros r Hr; simpl in Hr;
    apply getElementById_Some in Hr as (e & ? & ? & _); eauto.
Qed.

Section targets.
Context (tg : Targets) (st : State) (Hok : targets_ok tg st).

Lemma targets_title_description t d :
  blockTitleElement tg = Some t → blockDescriptionElement tg = Some d → t ≠ d.
Proof using Hok.
  destruct Hok as (Ht & Hd & _). intros [e [He Hid]]%Ht [e' [He' Hid']]%Hd ->.
  rewrite He in He'. injection He' as <-. rewrite Hid in Hid'. discriminate.
Qed.

Lemma targets_title_button t b :
  blockTitleElement tg = Some t → blockButtonElement tg = Some b → t ≠ b.
Proof using Hok.
  destruct Hok as (Ht & _ & Hb). intros [e [He Hid]]%Ht [e' [He' Hid']]%Hb ->.
  rewrite He in He'. injection He' as <-. rewrite Hid in Hid'. discriminate.
Qed.

Lemma targets_description_button d b :
  blockDescriptionElement tg = Some d → blockButtonElement tg = Some b → d ≠ b.
Proof using Hok.
  destruct Hok as (_ & Hd & Hb). intros [e [He Hid]]%Hd [e' [He' Hid']]%Hb ->.
  rewrite He in He'. injection He' as <-. rewrite Hid in Hid'. discriminate.
Qed.
End targets.

Section same_at.
Implicit Types (st : State) (i : nat).

Lemma same_at_refl i st : same_at i st st.
Proof. done. Qed.

Lemma same_at_trans i st1 st2 st3 :
  same_at i st1 st2 → same_at i st2 st3 → same_at i st1 st3.
Proof. unfold same_at. congruence. Qed.

Lemma same_at_lookup i st st' e :
  same_at i st st' → heap st !! i = Some e →
  ∃ e', heap st' !! i = Some e' ∧ forget_parent e' = forget_parent e.
Proof.
  unfold same_at. intros H He. rewrite He in H.
  destruct (heap st' !! i) as [e'|]; [|done].
  exists e'. split; [done|]. simpl in H. congruence.
Qed.

Lemma forget_parent_fields e e' :
  forget_parent e' = forget_parent e →
  el_id e' = el_id e ∧ el_blockId e' = el_blockId e ∧
  textContent e' = textContent e ∧ display e' = display e ∧
  opacity e' = opacity e ∧ listeners e' = listeners e.
Proof.
  destruct e, e'. unfold forget_parent, set_parent. simpl.
  intros [= -> -> -> -> -> ->]. done.
Qed.

Lemma same_at_set_textContent i el s st :
  i ≠ el → same_at i st (set_textContent el s st).
Proof. intros. unfold same_at. by rewrite lookup_set_textContent_ne. Qed.

Lemma same_at_console_warn i args st : same_at i st (console_warn args st).
Proof. done. Qed.

Lemma same_at_alter i el f st :
  i ≠ el → same_at i st (with_heap (alter f el (heap st)) st).
Proof. intros. unfold same_at. simpl. by rewrite list_lookup_alter_ne. Qed.

Lemma same_at_set_display i el s st : i ≠ el → same_at i st (set_display el s st).
Proof. apply same_at_alter. Qed.

Lemma same_at_addEventListener i el ev h st :
  i ≠ el → same_at i st (addEventListener el ev h st).
Proof. apply same_at_alter. Qed.

Lemma same_at_replaceChild i p new old st :
  i ≠ new → i ≠ old → same_at i st (replaceChild p new old st).
Proof.
  intros. unfold same_at, replaceChild. simpl.
  by rewrite !list_lookup_alter_ne.
Qed.

Lemma same_at_cloneNode i el st :
  i < length (heap st) → same_at i st (fst (cloneNode el st)).
Proof. intros. unfold same_at. simpl. by rewrite lookup_app_l. Qed.

Lemma same_at_renderText i target v w d st :
  target ≠ Some i → same_at i st (renderText target v w d st).
Proof.
  intros Hne. unfold renderText. destruct target as [el|]; [|done].
  assert (i ≠ el) by congruence.
  destruct (truthy v).
  - by apply same_at_set_textContent.
  - eapply same_at_trans; [apply same_at_console_warn|].
    by apply same_at_set_textContent.
Qed.
End same_at.

(** ** [renderContentBlock]: title and description *)

Lemma same_at_text_at i st st' : same_at i st st' → text_at st' i = text_at st i.
Proof.
  unfold same_at, text_at. intros H.
  destruct (heap st !! i) as [e|], (heap st' !! i) as [e'|]; try done.
  simpl in *. f_equal. apply forget_parent_fields. congruence.
Qed.

Section renderText.
Context (v : JsVal) (warning dflt : string).

Lemma renderText_console target st :
  console (renderText target v warning dflt st) =
    console st ++
      (if bool_decide (is_Some target) && truthy v then [] else [(LWarn, [warning])]).
Proof.
  unfold renderText. destruct target as [el|]; simpl; [|done].
  destruct (truthy v); simpl; [by rewrite app_nil_r | done].
Qed.

Lemma renderText_length target st :
  length (heap (renderText target v warning dflt st)) = length (heap st).
Proof.
  unfold renderText. destruct target as [el|]; [|done].
  destruct (truthy v); by rewrite length_set_textContent.
Qed.

Lemma renderText_target el st :
  is_Some (heap st !! el) →
  text_at (renderText (Some el) v warning dflt st) el =
    Some (if truthy v then ToString v else dflt).
Proof.
  intros [e He]. unfold renderText, text_at.
  destruct (truthy v); rewrite lookup_set_textContent_eq; simpl; by rewrite He.
Qed.
End renderText.

Section renderButton.
Context (tg : Targets) (data : Data).

Lemma renderButton_console st :
  console (fst (renderButton tg data st)) = console st.
Proof.
  unfold renderButton. destruct (blockButtonElement tg) as [b|]; [|done].
  destruct (truthy (buttonText data)); [|done].
  simpl. by destruct (get_parentNode _ _).
Qed.

(** The button branch leaves every other element of the heap alone, up
    to its parent (which changes when it was a child of the button). *)
Lemma renderButton_same_at i st :
  blockButtonElement tg ≠ Some i → i < length (heap st) →
  same_at i st (fst (renderButton tg data st)).
Proof.
  intros Hne Hlt. unfold renderButton.
  destruct (blockButtonElement tg) as [b|]; [|done].
  assert (i ≠ b) as Hib by congruence.
  destruct (truthy (buttonText data)).
  - set (st1 := set_textContent b _ st).
    set (st2 := set_display b "block" st1).
    assert (length (heap st2) = length (heap st)) as Hlen.
    { unfold st2, set_display. simpl. by rewrite length_alter, length_imap. }
    assert (same_at i st st2) as H2.
    { apply (same_at_trans i st st1 st2);
        [by apply same_at_set_textContent | by apply same_at_set_display]. }
    assert (same_at i st2 (fst (cloneNode b st2))) as H3.
    { apply same_at_cloneNode. lia. }
    destruct (cloneNode b st2) as [st3 n] eqn:Hc.
    assert (n = length (heap st2)) as -> by (by inversion Hc).
    simpl in H3.
    assert (∀ p, same_at i st3
              (addEventListener (length (heap st2)) Click (ClickHandler data)
                 (replaceChild p (length (heap st2)) b st3))) as H4.
    { intros p. eapply same_at_trans.
      - apply (same_at_replaceChild i p (length (heap st2)) b); [lia|done].
      - apply same_at_addEventListener. lia. }
    apply (same_at_trans i st st2); [done|].
    destruct (get_parentNode b st3) eqn:Hp; simpl; [done| |];
      by apply (same_at_trans i st2 st3).
  - by apply same_at_set_display.
Qed.
End renderButton.

(** C5. For every payload: when the title target exists and [data.title] is
    non-empty, [renderContentBlock] leaves the title target with the text
    [data.title] and logs no title warning; otherwise it logs the title
    warning and, when the target exists, leaves it with the default title.
    The description follows the same rule with its own default and its
    own warning, independently of the title. *)
Theorem renderContentBlock_title_description tg data st :
  targets_ok tg st →
  let st' := fst (renderContentBlock tg data st) in
  (∀ t, blockTitleElement tg = Some t →
     text_at st' t =
       Some (if truthy (title data) then ToString (title data) else defaultTitle)) ∧
  (∀ d, blockDescriptionElement tg = Some d →
     text_at st' d =
       Some (if truthy (description data) then ToString (description data)
             else defaultDescription)) ∧
  console st' =
    console st ++
      (if bool_decide (is_Some (blockTitleElement tg)) && truthy (title data)
       then [] else [(LWarn, [titleWarning])]) ++
      (if bool_decide (is_Some (blockDescriptionElement tg)) && truthy (description data)
       then [] else [(LWarn, [descriptionWarning])]).
Proof.
  intros Hok st'. unfold renderContentBlock in st'.
  set (st1 := renderText (blockTitleElement tg) (title data) titleWarning defaultTitle st) in *.
  set (st2 := renderText (blockDescriptionElement tg) (description data)
                descriptionWarning defaultDescription st1) in *.
  assert (length (heap st2) = length (heap st)) as Hlen.
  { unfold st2, st1. by rewrite !renderText_length. }
  split; [|split].
  - intros t Ht. destruct (proj1 Hok t Ht) as (e & He & _).
    unfold st'. rewrite (same_at_text_at t st2).
    2:{ apply renderButton_same_at.
        - intros Hb. by apply (targets_title_button tg st Hok t t).
        - rewrite Hlen. by eapply lookup_lt_Some. }
    unfold st2. rewrite (same_at_text_at t st1).
    2:{ apply same_at_renderText. intros Hd.
        by apply (targets_title_description tg st Hok t t). }
    unfold st1. rewrite Ht. apply renderText_target. eauto.
  - intros d Hd. destruct (proj1 (proj2 Hok) d Hd) as (e & He & _).
    unfold st'. rewrite (same_at_text_at d st2).
    2:{ apply renderButton_same_at.
        - intros Hb. by apply (targets_description_button tg st Hok d d).
        - rewrite Hlen. by eapply lookup_lt_Some. }
    unfold st2. rewrite Hd. apply renderText_target.
    apply lookup_lt_is_Some. unfold st1. rewrite renderText_length.
    by eapply lookup_lt_Some.
  - unfold st'. rewrite renderButton_console. unfold st2, st1.
    by rewrite !renderText_console, <- app_assoc.
Qed.

(** ** [renderContentBlock]: the button *)

Lemma renderText_frame target v w d st i e :
  target ≠ Some i → heap st !! i = Some e →
  (∀ t, target = Some t → parentNode e ≠ PElement t) →
  heap (renderText target v w d st) !! i = Some e.
Proof.
  intros Hne He Hp. unfold renderText. destruct target as [el|]; [|done].
  assert (i ≠ el) by congruence. specialize (Hp el eq_refl).
  destruct (truthy v); by apply lookup_set_textContent_frame.
Qed.

Lemma renderText_look target v w d st i :
  look <$> heap (renderText target v w d st) !! i = look <$> heap st !! i.
Proof.
  unfold renderText. destruct target as [el|]; [|done].
  destruct (truthy v); rewrite lookup_set_textContent;
    simpl; destruct (heap st !! i) as [e|]; simpl; try done;
    repeat case_bool_decide; done.
Qed.

Lemma renderButton_none tg data st :
  blockButtonElement tg = None → renderButton tg data st = (st, Normal).
Proof. intros H. unfold renderButton. by rewrite H. Qed.

Lemma renderButton_falsy tg data st b :
  blockButtonElement tg = Some b → truthy (buttonText data) = false →
  renderButton tg data st = (set_display b "none" st, Normal).
Proof. intros H1 H2. unfold renderButton. by rewrite H1, H2. Qed.

(** What line 60 does to the element the script holds in
    [blockButtonElement], which is the button of the document only as long
    as no render with a [buttonText] has replaced it: for every payload
    whose [buttonText] is empty or absent, [renderContentBlock] returns
    normally and leaves that element hidden ([display] is [none]) with its
    id, its text, its opacity and its listeners as they were; its parent is
    as it was too, unless it was a child of the title or the description
    target.  And when there is no button target, whatever the payload, the
    render is that of the title and the description alone: no element is
    created, and no element changes its id, its style or its listeners. *)
Lemma renderContentBlock_hides_button tg data st :
  targets_ok tg st →
  let st' := fst (renderContentBlock tg data st) in
  (truthy (buttonText data) = false →
   snd (renderContentBlock tg data st) = Normal ∧
   ∀ b e, blockButtonElement tg = Some b → heap st !! b = Some e →
     ∃ e', heap st' !! b = Some e' ∧
       forget_parent e' = forget_parent (set_disp "none" e) ∧
       ((∀ t, blockTitleElement tg = Some t → parentNode e ≠ PElement t) →
        (∀ d, blockDescriptionElement tg = Some d → parentNode e ≠ PElement d) →
        e' = set_disp "none" e)) ∧
  (blockButtonElement tg = None →
   snd (renderContentBlock tg data st) = Normal ∧
   length (heap st') = length (heap st) ∧
   ∀ i, look <$> heap st' !! i = look <$> heap st !! i).
Proof.
  intros Hok st'. subst st'. unfold renderContentBlock.
  set (st1 := renderText (blockTitleElement tg) (title data) titleWarning defaultTitle st).
  set (st2 := renderText (blockDescriptionElement tg) (description data)
                descriptionWarning defaultDescription st1).
  split.
  - intros Hfalsy. destruct (blockButtonElement tg) as [b|] eqn:Hb.
    2:{ by rewrite renderButton_none. }
    rewrite (renderButton_falsy tg data st2 b Hb Hfalsy). split; [done|].
    intros ? e [= <-] He.
    assert (blockTitleElement tg ≠ Some b) as Htb.
    { intros Ht. by apply (targets_title_button tg st Hok b b). }
    assert (blockDescriptionElement tg ≠ Some b) as Hdb.
    { intros Hd. by apply (targets_description_button tg st Hok b b). }
    assert (same_at b st st2) as Hsame.
    { apply (same_at_trans b st st1 st2); by apply same_at_renderText. }
    destruct (same_at_lookup b st st2 e Hsame He) as (e2 & He2 & Hfp).
    exists (set_disp "none" e2). split; [|split].
    + simpl. rewrite list_lookup_alter_eq. by rewrite He2.
    + destruct e, e2. unfold forget_parent, set_parent, set_disp in *.
      simpl in *. congruence.
    + intros Ht Hd. f_equal.
      assert (heap st2 !! b = Some e) as He2'; [|congruence].
      unfold st2. apply renderText_frame; [done| |done].
      unfold st1. by apply renderText_frame.
  - intros Hb. rewrite renderButton_none by done. simpl.
    split; [done|]. split.
    + unfold st2, st1. by rewrite !renderText_length.
    + intros i. unfold st2, st1. by rewrite !renderText_look.
Qed.

(** What a successful pass through lines 41-58 leaves behind: the old
    button, out of the tree, and its copy in its place, with the one
    listener of this render. *)
Lemma renderButton_installs tg data st b st1 :
  blockButtonElement tg = Some b → truthy (buttonText data) = true →
  renderButton tg data st = (st1, Normal) →
  ∃ e, heap st !! b = Some e ∧ parentNode e ≠ PNull ∧
    length (heap st1) = S (length (heap st)) ∧
    heap st1 !! b =
      Some (set_parent PNull
              (set_disp "block" (set_text (ToString (buttonText data)) e))) ∧
    heap st1 !! length (heap st) =
      Some (set_listeners [(Click, ClickHandler data)]
              (set_disp "block" (set_text (ToString (buttonText data)) e))).
Proof.
  intros Hb Ht. unfold renderButton. rewrite Hb, Ht.
  set (s := ToString (buttonText data)).
  set (st3 := set_display b "block" (set_textContent b s st)).
  assert (length (heap st3) = length (heap st)) as Hlen.
  { unfold st3, set_display. simpl. by rewrite length_alter, length_imap. }
  assert (heap st3 !! b = (λ e, set_disp "block" (set_text s e)) <$> heap st !! b) as H3.
  { unfold st3. rewrite lookup_set_display, decide_True by done.
    rewrite lookup_set_textContent_eq. by destruct (heap st !! b). }
  clearbody st3.
  destruct (heap st !! b) as [e|] eqn:He; simpl in H3.
  - (* the button is in the heap *)
    pose proof (lookup_cloneNode_old b st3 b _ H3) as Hold.
    pose proof (lookup_cloneNode_new b st3 _ H3) as Hnew.
    destruct (cloneNode b st3) as [st4 n] eqn:Hc.
    assert (n = length (heap st3)) as -> by (by inversion Hc).
    assert (length (heap st4) = S (length (heap st3))) as Hlen4.
    { inversion Hc. simpl. rewrite length_app. simpl. lia. }
    simpl in Hold, Hnew.
    assert (b < length (heap st3)) as Hlt by (by eapply lookup_lt_Some).
    unfold get_parentNode. rewrite Hold. simpl.
    assert (∀ p, p = parentNode e →
      length (heap (addEventListener (length (heap st3)) Click (ClickHandler data)
                 (replaceChild p (length (heap st3)) b st4))) = S (length (heap st)) ∧
      heap (addEventListener (length (heap st3)) Click (ClickHandler data)
              (replaceChild p (length (heap st3)) b st4)) !! b =
        Some (set_parent PNull (set_disp "block" (set_text s e))) ∧
      heap (addEventListener (length (heap st3)) Click (ClickHandler data)
              (replaceChild p (length (heap st3)) b st4)) !! length (heap st) =
        Some (set_listeners [(Click, ClickHandler data)]
                (set_disp "block" (set_text s e)))) as Hinst.
    { intros p ->. split; [|split].
      - unfold addEventListener, replaceChild. simpl.
        rewrite !length_alter. lia.
      - rewrite lookup_addEventListener, decide_False by lia.
        rewrite lookup_replaceChild by lia.
        by rewrite decide_True, Hold by done.
      - rewrite <- Hlen. rewrite lookup_addEventListener, decide_True by done.
        rewrite lookup_replaceChild by lia.
        rewrite decide_False by lia. rewrite decide_True by done.
        by rewrite Hnew. }
    destruct (parentNode e) eqn:Hp; intros [= <-];
      exists e; (split; [done|]); (split; [congruence|]); by apply Hinst.
  - (* a dangling reference has no parent: the call throws *)
    assert (get_parentNode b (fst (cloneNode b st3)) = PNull) as Hnull.
    { unfold get_parentNode, cloneNode. simpl. rewrite H3. simpl.
      destruct (decide (b = length (heap st3))) as [->|Hne].
      - rewrite lookup_app_r by lia. by rewrite Nat.sub_diag.
      - destruct (decide (b < length (heap st3))).
        + rewrite lookup_app_l by done. by rewrite H3.
        + rewrite lookup_ge_None_2; [done|]. rewrite length_app. simpl. lia. }
    destruct (cloneNode b st3) as [st4 n]. simpl in Hnull. by rewrite Hnull.
Qed.

(** The same pass on a button that is in no tree: [parentNode] is [null]
    and line 48 throws. *)
Lemma renderButton_detached tg data st b e :
  blockButtonElement tg = Some b → truthy (buttonText data) = true →
  heap st !! b = Some e → parentNode e = PNull →
  snd (renderButton tg data st) = Threw TypeError.
Proof.
  intros Hb Ht He Hp. unfold renderButton. rewrite Hb, Ht.
  set (s := ToString (buttonText data)).
  set (st3 := set_display b "block" (set_textContent b s st)).
  assert (heap st3 !! b = Some (set_disp "block" (set_text s e))) as H3.
  { unfold st3. rewrite lookup_set_display, decide_True by done.
    rewrite lookup_set_textContent_eq. by rewrite He. }
  pose proof (lookup_cloneNode_old b st3 b _ H3) as Hold.
  destruct (cloneNode b st3) as [st4 n]. simpl in Hold.
  unfold get_parentNode. rewrite Hold. simpl. by rewrite Hp.
Qed.

(** And with a parent the pass returns normally. *)
Lemma renderButton_attached tg data st b e :
  blockButtonElement tg = Some b → truthy (buttonText data) = true →
  heap st !! b = Some e → parentNode e ≠ PNull →
  snd (renderButton tg data st) = Normal.
Proof.
  intros Hb Ht He Hp. unfold renderButton. rewrite Hb, Ht.
  set (s := ToString (buttonText data)).
  set (st3 := set_display b "block" (set_textContent b s st)).
  assert (heap st3 !! b = Some (set_disp "block" (set_text s e))) as H3.
  { unfold st3. rewrite lookup_set_display, decide_True by done.
    rewrite lookup_set_textContent_eq. by rewrite He. }
  pose proof (lookup_cloneNode_old b st3 b _ H3) as Hold.
  destruct (cloneNode b st3) as [st4 n]. simpl in Hold.
  unfold get_parentNode. rewrite Hold. simpl. by destruct (parentNode e).
Qed.

(** A render returns normally when the button target is in a tree and is
    not a child of the title or description target (whose children the
    render removes). *)
Lemma renderContentBlock_returns tg data st b e :
  targets_ok tg st →
  blockButtonElement tg = Some b → heap st !! b = Some e →
  parentNode e ≠ PNull →
  (∀ t, blockTitleElement tg = Some t → parentNode e ≠ PElement t) →
  (∀ d, blockDescriptionElement tg = Some d → parentNode e ≠ PElement d) →
  snd (renderContentBlock tg data st) = Normal.
Proof.
  intros Hok Hb He Hp Ht Hd. unfold renderContentBlock.
  destruct (truthy (buttonText data)) eqn:Htext.
  - apply (renderButton_attached tg data _ b e); [done|done| |done].
    apply renderText_frame; [|apply renderText_frame|]; try done.
    + intros H. by apply (targets_description_button tg st Hok b b).
    + intros H. by apply (targets_title_button tg st Hok b b).
  - by rewrite (renderButton_falsy tg data _ b).
Qed.

(** ** The click listener and the notification it shows *)

Section showTemporaryMessage.
Context (message : string) (st : State).

Local Abbreviation messageBox := (length (heap st)).

Lemma showTemporaryMessage_heap :
  heap (showTemporaryMessage message st) !! messageBox =
    Some (messageBoxElement message (body st)) ∧
  length (heap (showTemporaryMessage message st)) = S (length (heap st)).
Proof.
  unfold showTemporaryMessage, createElement, setTimeout. simpl.
  split.
  - rewrite list_lookup_alter_eq, list_lookup_imap, list_lookup_alter_eq.
    rewrite lookup_app_r by done. rewrite Nat.sub_diag. simpl.
    by rewrite bool_decide_eq_true_2.
  - rewrite length_alter, length_imap, length_alter, length_app. simpl. lia.
Qed.

Lemma showTemporaryMessage_timers :
  timers (showTemporaryMessage message st) =
    timers st ++ [(now st + 10, FadeIn messageBox); (now st + 2000, FadeOut messageBox)].
Proof.
  unfold showTemporaryMessage, createElement, setTimeout. simpl.
  by rewrite <- app_assoc.
Qed.

Lemma showTemporaryMessage_rest :
  location (showTemporaryMessage message st) = location st ∧
  console (showTemporaryMessage message st) = console st ∧
  now (showTemporaryMessage message st) = now st ∧
  body (showTemporaryMessage message st) = body st ∧
  promises (showTemporaryMessage message st) = promises st.
Proof. done. Qed.
End showTemporaryMessage.

Lemma dispatchEvent_single ev h el st :
  listeners <$> heap st !! el = Some [(ev, h)] →
  dispatchEvent ev el st = run_handler h st.
Proof.
  intros H. unfold dispatchEvent. rewrite H. simpl.
  rewrite filter_cons_True by done. done.
Qed.

Lemma dispatchEvent_none ev el st :
  listeners <$> heap st !! el = Some [] → dispatchEvent ev el st = st.
Proof. intros H. unfold dispatchEvent. by rewrite H. Qed.

Lemma string_length_app (a b : string) :
  String.length (a +:+ b) = String.length a + String.length b.
Proof. induction a as [|c a IH]; simpl; [done | by rewrite IH]. Qed.

Lemma string_app_inj_r (a b t : string) : a +:+ t = b +:+ t → a = b.
Proof.
  revert b. induction a as [|c a IH]; intros [|c' b] H.
  - done.
  - apply (f_equal String.length) in H.
    rewrite !string_length_app in H. simpl in H. lia.
  - apply (f_equal String.length) in H.
    rewrite !string_length_app in H. simpl in H. lia.
  - simpl in H. injection H as -> H. f_equal. by apply IH.
Qed.

Lemma clickMessage_contains data :
  clickMessage data =
    ("Action: " +:+ dq) +:+ ToString (buttonText data) +:+ (dq +:+ " clicked!").
Proof. done. Qed.

Lemma clickMessage_inj d1 d2 :
  clickMessage d1 = clickMessage d2 →
  ToString (buttonText d1) = ToString (buttonText d2).
Proof.
  rewrite !clickMessage_contains. intros H.
  apply String.app_inj in H. by apply string_app_inj_r in H.
Qed.

(** C7. After a render that returned normally with a button target, a
    non-empty [buttonText] and a non-empty [buttonLink], the button in
    the document carries exactly the click listener of this render, and a
    click on it leaves the page location as it was, logs the navigation,
    and puts a notification overlay into the body whose text contains the
    render's [buttonText], with its two timers set. *)
Theorem click_logs_and_notifies tg data st st1 b :
  blockButtonElement tg = Some b →
  truthy (buttonText data) = true →
  truthy (buttonLink data) = true →
  renderContentBlock tg data st = (st1, Normal) →
  let newButton := length (heap st) in
  let messageBox := length (heap st1) in
  let st2 := dispatchEvent Click newButton st1 in
  listeners <$> heap st1 !! newButton = Some [(Click, ClickHandler data)] ∧
  location st2 = location st1 ∧
  console st2 =
    console st1 ++ [(LLog, ["Content Block: Navigating to:"; ToString (buttonLink data)])] ∧
  heap st2 !! messageBox = Some (messageBoxElement (clickMessage data) (body st1)) ∧
  timers st2 =
    timers st1 ++ [(now st1 + 10, FadeIn messageBox); (now st1 + 2000, FadeOut messageBox)] ∧
  ∃ pre post, clickMessage data = pre +:+ ToString (buttonText data) +:+ post.
Proof.
  intros Hb Ht Hl Hr newButton messageBox st2.
  unfold renderContentBlock in Hr.
  destruct (renderButton_installs _ _ _ _ _ Hb Ht Hr) as (e & _ & _ & _ & _ & Hnew).
  rewrite !renderText_length in Hnew. fold newButton in Hnew.
  assert (listeners <$> heap st1 !! newButton = Some [(Click, ClickHandler data)]) as Hls.
  { by rewrite Hnew. }
  split; [done|].
  unfold st2. rewrite (dispatchEvent_single _ _ _ _ Hls).
  unfold run_handler. rewrite Hl.
  set (st1' := console_log _ st1).
  destruct (showTemporaryMessage_heap (clickMessage data) st1') as [Hbox _].
  split; [done|]. split; [done|]. split; [exact Hbox|]. split.
  - by rewrite showTemporaryMessage_timers.
  - eexists _, _. apply clickMessage_contains.
Qed.

(** ** Rendering twice *)

Lemma has_id_lt st target id r :
  has_id st target id → target = Some r → r < length (heap st).
Proof. intros H Hr. destruct (H r Hr) as (e & He & _). by eapply lookup_lt_Some. Qed.

(** C1 (the code does not do what the claim says).  [blockButtonElement]
    is looked up once, at line 9, and a render with a non-empty
    [buttonText] takes that element out of the tree.  So when a render
    that installed a click listener is followed by a second render with a
    non-empty [buttonText], the second one throws a TypeError at line 48,
    and the button that is in the document still has the text and the one
    listener of the first render: a click on it shows the first
    render's notification, which differs from the second's as soon as
    the two [buttonText] values differ. *)
Theorem second_render_keeps_first_handler tg d1 d2 st st1 b :
  targets_ok tg st →
  blockButtonElement tg = Some b →
  truthy (buttonText d1) = true →
  truthy (buttonText d2) = true →
  renderContentBlock tg d1 st = (st1, Normal) →
  let newButton := length (heap st) in
  let st2 := fst (renderContentBlock tg d2 st1) in
  snd (renderContentBlock tg d2 st1) = Threw TypeError ∧
  listeners <$> heap st2 !! newButton = Some [(Click, ClickHandler d1)] ∧
  text_at st2 newButton = Some (ToString (buttonText d1)) ∧
  heap (dispatchEvent Click newButton st2) !! length (heap st2) =
    Some (messageBoxElement (clickMessage d1) (body st2)) ∧
  (ToString (buttonText d1) ≠ ToString (buttonText d2) →
   clickMessage d1 ≠ clickMessage d2).
Proof.
  intros Hok Hb Ht1 Ht2 Hr newButton st2.
  cut (snd (renderContentBlock tg d2 st1) = Threw TypeError ∧
       listeners <$> heap st2 !! newButton = Some [(Click, ClickHandler d1)] ∧
       text_at st2 newButton = Some (ToString (buttonText d1)) ∧
       heap (dispatchEvent Click newButton st2) !! length (heap st2) =
         Some (messageBoxElement (clickMessage d1) (body st2))).
  { intros (? & ? & ? & ?). repeat (split; [done|]).
    intros Hne Heq. by apply Hne, clickMessage_inj. }
  destruct Hok as (Hidt & Hidd & Hidb).
  unfold renderContentBlock in Hr.
  destruct (renderButton_installs _ _ _ _ _ Hb Ht1 Hr)
    as (e & He & _ & Hlen1 & Hold & Hnew).
  rewrite !renderText_length in Hlen1, Hnew. fold newButton in Hlen1, Hnew.
  assert (b < newButton) as Hbn by (by eapply has_id_lt).
  assert (blockTitleElement tg ≠ Some newButton) as Htn.
  { intros H. pose proof (has_id_lt _ _ _ _ Hidt H). unfold newButton in *. lia. }
  assert (blockDescriptionElement tg ≠ Some newButton) as Hdn.
  { intros H. pose proof (has_id_lt _ _ _ _ Hidd H). unfold newButton in *. lia. }
  assert (blockTitleElement tg ≠ Some b) as Htb.
  { intros H. destruct (Hidt b H) as (x & Hx & Hi), (Hidb b Hb) as (y & Hy & Hj).
    rewrite Hx in Hy. injection Hy as <-. rewrite Hi in Hj. discriminate. }
  assert (blockDescriptionElement tg ≠ Some b) as Hdb.
  { intros H. destruct (Hidd b H) as (x & Hx & Hi), (Hidb b Hb) as (y & Hy & Hj).
    rewrite Hx in Hy. injection Hy as <-. rewrite Hi in Hj. discriminate. }
  unfold st2, renderContentBlock.
  set (sa := renderText (blockTitleElement tg) (title d2) titleWarning defaultTitle st1).
  set (sb := renderText (blockDescriptionElement tg) (description d2)
               descriptionWarning defaultDescription sa).
  (* the old button is still out of the tree when line 48 is reached *)
  assert (heap sb !! b =
            Some (set_parent PNull
                    (set_disp "block" (set_text (ToString (buttonText d1)) e)))) as Hb2.
  { unfold sb. apply renderText_frame; [done| |done].
    unfold sa. by apply renderText_frame. }
  split.
  { by eapply renderButton_detached. }
  (* the button in the document is untouched, up to its parent *)
  assert (same_at newButton st1 (fst (renderButton tg d2 sb))) as Hsame.
  { apply (same_at_trans _ st1 sa); [by apply same_at_renderText|].
    apply (same_at_trans _ sa sb); [by apply same_at_renderText|].
    apply renderButton_same_at.
    - rewrite Hb. intros [= ?]. lia.
    - unfold sb, sa. rewrite !renderText_length. lia. }
  destruct (same_at_lookup _ _ _ _ Hsame Hnew) as (e' & He' & Hfp).
  apply forget_parent_fields in Hfp as (_ & _ & Htxt & _ & _ & Hls).
  simpl in Htxt, Hls.
  assert (listeners <$> heap (fst (renderButton tg d2 sb)) !! newButton
            = Some [(Click, ClickHandler d1)]) as Hls'.
  { rewrite He'. simpl. by rewrite Hls. }
  split; [done|]. split.
  { unfold text_at. rewrite He'. simpl. by rewrite Htxt. }
  rewrite (dispatchEvent_single _ _ _ _ Hls'). unfold run_handler.
  destruct (truthy (buttonLink d1));
    match goal with |- heap (showTemporaryMessage _ ?s) !! _ = _ =>
      apply (showTemporaryMessage_heap (clickMessage d1) s) end.
Qed.

(** ** Initialisation *)

Lemma init_with_container st c :
  getElementById "edsContentBlock" st = Some c →
  init st =
    fetchAndRender
      (if truthy (dataset_blockId c st) then ToString (dataset_blockId c st)
       else "homepage-hero-block") st.
Proof. intros H. unfold init. by rewrite H. Qed.

Lemma fetchAndRender_state blockId st :
  fetchAndRender blockId st =
    mkState (heap st) (body st) (location st)
      (console st ++
         [(LLog, ["Content Block: Simulating content fetch for block ID: "
                    +:+ dq +:+ blockId +:+ dq])])
      (now st)
      (timers st ++ [(now st + 500, ResolveFetch (length (promises st)) blockId)])
      (promises st ++
         [mkPromise Pending [ThenRenderCatch (capturedTargets st) blockId]]).
Proof.
  unfold fetchAndRender, fetchContentForBlock, then_catch, setTimeout. simpl.
  rewrite lookup_app_r by done. rewrite Nat.sub_diag. simpl.
  unfold with_promises. simpl. f_equal.
  rewrite insert_app_r_alt by done. by rewrite Nat.sub_diag.
Qed.

(** C9. When no element of the document has the id [edsContentBlock],
    initialisation logs the error and does nothing else: no timer is
    set, no promise is created (no fetch), and no element of the heap
    changes (no render). *)
Theorem init_without_container st :
  getElementById "edsContentBlock" st = None →
  init st = console_error [containerError] st ∧
  console (init st) = console st ++ [(LError, [containerError])] ∧
  timers (init st) = timers st ∧
  promises (init st) = promises st ∧
  heap (init st) = heap st.
Proof. intros H. unfold init. by rewrite H. Qed.

(** C10. When the container has no [data-block-id] attribute, and also
    when it has one whose value is the empty string, initialisation
    fetches the content of [homepage-hero-block]. *)
Theorem init_default_blockId st c e :
  getElementById "edsContentBlock" st = Some c →
  heap st !! c = Some e →
  el_blockId e = None ∨ el_blockId e = Some "" →
  init st = fetchAndRender "homepage-hero-block" st ∧
  timers (init st) =
    timers st ++
      [(now st + 500, ResolveFetch (length (promises st)) "homepage-hero-block")].
Proof.
  intros Hc He Hattr. rewrite (init_with_container st c Hc).
  assert (truthy (dataset_blockId c st) = false) as ->.
  { unfold dataset_blockId. rewrite He. by destruct Hattr as [-> | ->]. }
  split; [done|]. by rewrite fetchAndRender_state.
Qed.

(** Any other value of the attribute is the identifier that is fetched. *)
Lemma init_given_blockId st c e s :
  getElementById "edsContentBlock" st = Some c →
  heap st !! c = Some e →
  el_blockId e = Some s → s ≠ "" →
  init st = fetchAndRender s st.
Proof.
  intros Hc He Hattr Hs. rewrite (init_with_container st c Hc).
  unfold dataset_blockId. rewrite He, Hattr. simpl.
  destruct (String.eqb_spec s ""); [done|]. done.
Qed.

(** ** What the callbacks leave alone *)

Lemma same_env_refl st : same_env st st.
Proof. done. Qed.

Lemma same_env_trans st1 st2 st3 :
  same_env st1 st2 → same_env st2 st3 → same_env st1 st3.
Proof. unfold same_env. intros (?&?&?&?&?) (?&?&?&?&?). repeat split; congruence. Qed.

Lemma renderText_env target v w d st : same_env st (renderText target v w d st).
Proof. unfold renderText. destruct target; [destruct (truthy v)|]; done. Qed.

Lemma renderButton_env tg data st : same_env st (fst (renderButton tg data st)).
Proof.
  unfold renderButton. destruct (blockButtonElement tg); [|done].
  destruct (truthy (buttonText data)); [|done].
  simpl. by destruct (get_parentNode _ _).
Qed.

Lemma renderContentBlock_env tg data st :
  same_env st (fst (renderContentBlock tg data st)).
Proof.
  unfold renderContentBlock.
  eapply same_env_trans; [apply renderText_env|].
  eapply same_env_trans; [apply renderText_env|]. apply renderButton_env.
Qed.

Lemma catchHandler_env tg blockId error st :
  same_env st (catchHandler tg blockId error st).
Proof.
  unfold catchHandler.
  eapply same_env_trans; [|apply renderContentBlock_env]. done.
Qed.

Lemma run_reaction_env r settled st : same_env st (run_reaction r settled st).
Proof.
  destruct r as [tg blockId], settled as [|d|e]; simpl; [done| |].
  - pose proof (renderContentBlock_env tg d st) as H.
    destruct (renderContentBlock tg d st) as [st' []]; simpl in H; [done|].
    eapply same_env_trans; [exact H|]. apply catchHandler_env.
  - apply catchHandler_env.
Qed.

Lemma run_reactions_env settled rs st :
  same_env st (foldl (λ s r, run_reaction r settled s) st rs).
Proof.
  revert st. induction rs as [|r rs IH]; intros st; simpl; [done|].
  eapply same_env_trans; [apply run_reaction_env|]. apply IH.
Qed.

Section resolve.
Context (q : nat) (data : Data) (st : State).

Lemma resolve_clock :
  body (resolve q data st) = body st ∧ location (resolve q data st) = location st ∧
  now (resolve q data st) = now st ∧ timers (resolve q data st) = timers st.
Proof.
  unfold resolve. destruct (promises st !! q) as [p|]; [|done].
  destruct (pstate p); try done.
  match goal with |- context [foldl ?f ?s ?l] =>
    destruct (run_reactions_env (Fulfilled data) l s) as (?&?&?&?&_) end.
  done.
Qed.

Lemma resolve_promises_ne p :
  p ≠ q → promises (resolve q data st) !! p = promises st !! p.
Proof.
  intros Hne. unfold resolve. destruct (promises st !! q) as [pr|]; [|done].
  destruct (pstate pr); try done.
  match goal with |- context [foldl ?f ?s ?l] =>
    destruct (run_reactions_env (Fulfilled data) l s) as (_&_&_&_&->) end.
  simpl. by rewrite list_lookup_insert_ne.
Qed.

Lemma resolve_pending rs :
  promises st !! q = Some (mkPromise Pending rs) →
  promises (resolve q data st) !! q = Some (mkPromise (Fulfilled data) []).
Proof.
  intros H. unfold resolve. rewrite H. simpl.
  match goal with |- context [foldl ?f ?s ?l] =>
    destruct (run_reactions_env (Fulfilled data) l s) as (_&_&_&_&->) end.
  simpl. apply list_lookup_insert_eq. by eapply lookup_lt_Some.
Qed.

Lemma resolve_settled pr :
  promises st !! q = Some pr → pstate pr ≠ Pending → resolve q data st = st.
Proof. intros H Hp. unfold resolve. rewrite H. by destruct (pstate pr). Qed.
End resolve.

Lemma run_callback_clock cb st :
  body (run_callback cb st) = body st ∧ location (run_callback cb st) = location st ∧
  now (run_callback cb st) = now st ∧ timers (run_callback cb st) = timers st.
Proof. destruct cb; simpl; [done|done|]. apply resolve_clock. Qed.

(** ** The clock *)

Lemma run_timers_clock l st :
  body (run_timers l st) = body st ∧ location (run_timers l st) = location st ∧
  now (run_timers l st) = now st ∧ timers (run_timers l st) = timers st.
Proof.
  revert st. induction l as [|tm l IH]; intros st; simpl; [done|].
  destruct (IH (run_callback (snd tm) st)) as (->&->&->&->).
  apply run_callback_clock.
Qed.

Lemma run_timers_app l1 l2 st :
  run_timers (l1 ++ l2) st = run_timers l2 (run_timers l1 st).
Proof. apply foldl_app. Qed.

(** An invariant of every callback that is due carries over the batch. *)
Lemma run_timers_ind (P : State → Prop) l st :
  (∀ tm s, tm ∈ l → P s → P (run_callback (snd tm) s)) →
  P st → P (run_timers l st).
Proof.
  revert st. induction l as [|tm l IH]; intros st Hstep HP; simpl; [done|].
  apply IH.
  - intros tm' s Hin. apply Hstep. by right.
  - apply Hstep; [by left | done].
Qed.

Lemma advance_S ms st : advance (S ms) st = tick (advance ms st).
Proof. done. Qed.

Lemma advance_clock ms st :
  now (advance ms st) = now st + ms ∧ body (advance ms st) = body st ∧
  location (advance ms st) = location st ∧
  timers (advance ms st) =
    filter (λ tm, ms = 0 ∨ ¬ due (now st + ms) tm) (timers st).
Proof.
  induction ms as [|ms (IHn & IHb & IHl & IHt)].
  - simpl. repeat split; try lia.
    induction (timers st) as [|tm l IH]; [done|].
    rewrite filter_cons_True by (by left). by rewrite <- IH.
  - rewrite advance_S. unfold tick.
    match goal with |- context [run_timers ?l ?s] =>
      destruct (run_timers_clock l s) as (->&->&->&->) end.
    simpl. rewrite IHn, IHb, IHl, IHt. repeat split; try lia.
    rewrite list_filter_filter. apply list_filter_iff.
    intros tm. unfold due. split.
    + intros [H _]. right. lia.
    + intros [|H]; [lia|]. split; [lia|]. right. lia.
Qed.

(** One more millisecond, with the queue of [st] split in two parts. *)
Lemma advance_S_split old mine ms st :
  timers st = old ++ mine →
  ∃ base,
    advance (S ms) st =
      run_timers (filter (fires (now st) ms) mine)
        (run_timers (filter (fires (now st) ms) old) base) ∧
    heap base = heap (advance ms st) ∧
    promises base = promises (advance ms st) ∧
    body base = body st.
Proof.
  intros Ht. destruct (advance_clock ms st) as (Hn & Hb & _ & Htm).
  exists (with_timers (filter (λ tm, ¬ due (S (now (advance ms st))) tm)
                      (timers (advance ms st)))
            (with_now (S (now (advance ms st))) (advance ms st))).
  split; [|by rewrite <- Hb].
  rewrite advance_S. unfold tick. rewrite <- run_timers_app, <- filter_app, <- Ht.
  f_equal. rewrite Htm, Hn, list_filter_filter. apply list_filter_iff.
  intros tm. unfold fires. by replace (now st + S ms) with (S (now st + ms)) by lia.
Qed.

(** ** [fetchContentForBlock] *)

Section fetch.
Context (blockId : string) (st : State) (Hok : promise_timers_ok st).

Local Abbreviation st1 := (fst (fetchContentForBlock blockId st)).
Local Abbreviation promise := (length (promises st)).

Lemma fetchContentForBlock_promise :
  snd (fetchContentForBlock blockId st) = promise.
Proof. done. Qed.

Lemma fetchContentForBlock_state :
  now st1 = now st ∧
  timers st1 = timers st ++ [(now st + 500, ResolveFetch promise blockId)] ∧
  promises st1 !! promise = Some (mkPromise Pending []).
Proof.
  repeat split. simpl. rewrite lookup_app_r by done.
  by rewrite Nat.sub_diag.
Qed.

(** A callback of the old queue does not touch the new promise. *)
Lemma old_timer_keeps_promise tm s pr :
  tm ∈ timers st → promises s !! promise = Some pr →
  promises (run_callback (snd tm) s) !! promise = Some pr.
Proof using Hok.
  intros Hin Hp. destruct tm as [t [b|b|q id]]; simpl; [done|done|].
  rewrite resolve_promises_ne; [done|].
  apply Hok in Hin. lia.
Qed.

(** A settled promise stays as it is, whatever runs. *)
Lemma settled_promise_stays cb s d :
  promises s !! promise = Some (mkPromise (Fulfilled d) []) →
  promises (run_callback cb s) !! promise = Some (mkPromise (Fulfilled d) []).
Proof.
  intros Hp. destruct cb as [b|b|q id]; simpl; [done|done|].
  destruct (decide (promise = q)) as [<-|Hne].
  - by rewrite (resolve_settled _ _ _ _ Hp).
  - by rewrite resolve_promises_ne.
Qed.

Lemma fetch_pending (ms : nat) :
  ms < 500 → promises (advance ms st1) !! promise = Some (mkPromise Pending []).
Proof using Hok.
  destruct fetchContentForBlock_state as (Hn & Ht & Hp).
  induction ms as [|ms IH]; intros Hlt; [done|].
  destruct (advance_S_split _ _ ms st1 Ht) as (base & -> & _ & Hbase & _).
  rewrite filter_cons_False, filter_nil.
  2:{ unfold fires, due. simpl. lia. }
  simpl. apply (run_timers_ind (λ s, promises s !! promise = Some _)).
  - intros tm s [_ Hin]%list_elem_of_filter. by apply old_timer_keeps_promise.
  - rewrite Hbase. apply IH. lia.
Qed.

Lemma fetch_fulfilled (ms : nat) :
  (500 ≤ ms)%nat →
  promises (advance ms st1) !! promise =
    Some (mkPromise (Fulfilled (resolvedData blockId)) []).
Proof using Hok.
  destruct fetchContentForBlock_state as (Hn & Ht & Hp).
  induction ms as [|ms IH]; intros Hle; [lia|].
  destruct (decide (ms = 499)) as [->|Hne].
  - (* the timer of line 154 fires *)
    destruct (advance_S_split _ _ 499 st1 Ht) as (base & -> & _ & Hbase & _).
    rewrite filter_cons_True, filter_nil.
    2:{ unfold fires, due. simpl. lia. }
    simpl. apply (resolve_pending _ _ _ []).
    apply (run_timers_ind (λ s, promises s !! promise = Some _)).
    + intros tm s [_ Hin]%list_elem_of_filter. by apply old_timer_keeps_promise.
    + rewrite Hbase. apply fetch_pending. lia.
  - rewrite advance_S. unfold tick.
    apply (run_timers_ind (λ s, promises s !! promise = Some _)).
    + intros tm s _. apply settled_promise_stays.
    + simpl. apply IH. lia.
Qed.
End fetch.

(** C2. For every [blockId], and whatever else is queued, the promise
    that [fetchContentForBlock] returns is never rejected, at no time, and
    from 500 ms on it is fulfilled, with [mockContentData[blockId]] or the
    fallback. *)
Theorem fetchContentForBlock_never_rejects blockId st :
  promise_timers_ok st →
  let st1 := fst (fetchContentForBlock blockId st) in
  let promise := snd (fetchContentForBlock blockId st) in
  (∀ (ms : nat) e, pstate <$> promises (advance ms st1) !! promise ≠ Some (Rejected e)) ∧
  (∀ ms : nat, (500 ≤ ms)%nat →
     pstate <$> promises (advance ms st1) !! promise =
       Some (Fulfilled (resolvedData blockId))).
Proof.
  intros Hok st1 promise. subst st1 promise.
  rewrite fetchContentForBlock_promise. split.
  - intros ms e. destruct (decide (ms < 500)).
    + by rewrite (fetch_pending blockId st Hok ms).
    + by rewrite (fetch_fulfilled blockId st Hok ms) by lia.
  - intros ms Hms. by rewrite (fetch_fulfilled blockId st Hok ms).
Qed.

(** C3. For every key of [mockContentData], the promise that
    [fetchContentForBlock] returns is still pending at every time before
    500 ms and is fulfilled with exactly the entry of that key from 500 ms
    on. *)
Theorem fetchContentForBlock_known_key blockId entry st :
  promise_timers_ok st →
  mockContentData !! blockId = Some entry →
  let st1 := fst (fetchContentForBlock blockId st) in
  let promise := snd (fetchContentForBlock blockId st) in
  (∀ ms : nat, ms < 500 →
     pstate <$> promises (advance ms st1) !! promise = Some Pending) ∧
  (∀ ms : nat, (500 ≤ ms)%nat →
     pstate <$> promises (advance ms st1) !! promise =
       Some (Fulfilled (Payload entry))).
Proof.
  intros Hok Hkey st1 promise. subst st1 promise.
  rewrite fetchContentForBlock_promise. split; intros ms Hms.
  - by rewrite (fetch_pending blockId st Hok ms).
  - rewrite (fetch_fulfilled blockId st Hok ms) by done.
    simpl. by rewrite (resolvedData_own _ _ Hkey).
Qed.

(** ** Elements that a render does not reach *)

Lemma renderButton_frame tg data st i e :
  heap st !! i = Some e → blockButtonElement tg ≠ Some i →
  (∀ b, blockButtonElement tg = Some b → parentNode e ≠ PElement b) →
  heap (fst (renderButton tg data st)) !! i = Some e.
Proof.
  intros He Hne Hp. unfold renderButton.
  destruct (blockButtonElement tg) as [b|]; [|done].
  assert (i ≠ b) as Hib by congruence. specialize (Hp b eq_refl).
  assert (i < length (heap st)) as Hlt by (by eapply lookup_lt_Some).
  destruct (truthy (buttonText data)).
  - set (st2 := set_display b "block" (set_textContent b _ st)).
    assert (heap st2 !! i = Some e) as H2.
    { unfold st2. rewrite lookup_set_display, decide_False by done.
      by apply lookup_set_textContent_frame. }
    assert (length (heap st2) = length (heap st)) as Hlen.
    { unfold st2, set_display. simpl. by rewrite length_alter, length_imap. }
    clearbody st2.
    pose proof (lookup_cloneNode_old b st2 i e H2) as H3.
    destruct (cloneNode b st2) as [st3 n] eqn:Hc.
    assert (n = length (heap st2)) as -> by (by inversion Hc).
    cbn [fst] in H3.
    assert (∀ p, heap (addEventListener (length (heap st2)) Click (ClickHandler data)
                   (replaceChild p (length (heap st2)) b st3)) !! i = Some e) as H4.
    { intros p. rewrite lookup_addEventListener, decide_False by lia.
      unfold replaceChild. simpl.
      rewrite list_lookup_alter_ne by done.
      by rewrite list_lookup_alter_ne by lia. }
    destruct (get_parentNode b st3); simpl; [done| |]; apply H4.
  - simpl. by rewrite list_lookup_alter_ne.
Qed.

Lemma renderContentBlock_frame tg data st i e :
  heap st !! i = Some e → avoids tg i →
  (∀ r, parentNode e = PElement r → avoids tg r) →
  heap (fst (renderContentBlock tg data st)) !! i = Some e.
Proof.
  intros He (Ht & Hd & Hb) Hp. unfold renderContentBlock.
  apply renderButton_frame; [|done|].
  - apply renderText_frame; [done| |].
    + apply renderText_frame; [done|done|].
      intros t Heq Hpar. by destruct (Hp t Hpar) as (? & _ & _).
    + intros t Heq Hpar. by destruct (Hp t Hpar) as (_ & ? & _).
  - intros b Heq Hpar. by destruct (Hp b Hpar) as (_ & _ & ?).
Qed.

Lemma run_reaction_frame tg blockId settled st i e :
  heap st !! i = Some e → avoids tg i →
  (∀ r, parentNode e = PElement r → avoids tg r) →
  heap (run_reaction (ThenRenderCatch tg blockId) settled st) !! i = Some e.
Proof.
  intros He Hi Hp.
  assert (∀ s err, heap s !! i = Some e →
            heap (catchHandler tg blockId err s) !! i = Some e) as Hcatch.
  { intros s err Hs. unfold catchHandler. by apply renderContentBlock_frame. }
  destruct settled as [|d|err]; simpl; [done| |by apply Hcatch].
  pose proof (renderContentBlock_frame tg d st i e He Hi Hp) as H.
  destruct (renderContentBlock tg d st) as [st' []]; [done|by apply Hcatch].
Qed.

Lemma resolve_frame q data st i e :
  heap st !! i = Some e → renders_avoid i e st →
  heap (resolve q data st) !! i = Some e.
Proof.
  intros He Hav. unfold resolve.
  destruct (promises st !! q) as [pr|] eqn:Hq; [|done].
  destruct (pstate pr); [|done|done].
  assert (∀ r, r ∈ reactions pr →
            ∃ tg id, r = ThenRenderCatch tg id ∧ avoids tg i ∧
                     ∀ x, parentNode e = PElement x → avoids tg x) as Hrs.
  { intros [tg id] Hin. exists tg, id. split; [done|]. by eapply Hav. }
  set (s0 := with_promises _ st).
  assert (heap s0 !! i = Some e) as H0 by done.
  clearbody s0. revert s0 H0.
  induction (reactions pr) as [|r rs IH]; intros s0 H0; [done|].
  simpl. apply IH.
  - intros r' Hin. apply Hrs. by right.
  - destruct (Hrs r) as (tg & id & -> & Hi & Hp); [by left|].
    by apply run_reaction_frame.
Qed.

Lemma resolve_reactions q data st q' pr' :
  promises (resolve q data st) !! q' = Some pr' →
  promises st !! q' = Some pr' ∨ reactions pr' = [].
Proof.
  intros H. destruct (decide (q' = q)) as [->|Hne].
  - destruct (promises st !! q) as [pr|] eqn:Hq.
    + destruct pr as [[|d|err] rs].
      * rewrite (resolve_pending q data st rs Hq) in H.
        injection H as <-. by right.
      * rewrite (resolve_settled q data st _ Hq) in H by done. left. congruence.
      * rewrite (resolve_settled q data st _ Hq) in H by done. left. congruence.
    + unfold resolve in H. rewrite Hq in H. congruence.
  - rewrite resolve_promises_ne in H by done. by left.
Qed.

Lemma resolve_renders_avoid q data st i e :
  renders_avoid i e st → renders_avoid i e (resolve q data st).
Proof.
  intros Hav q' pr' tg id Hq' Hin.
  destruct (resolve_reactions _ _ _ _ _ Hq') as [Hold | Hnil].
  - by eapply Hav.
  - rewrite Hnil in Hin. by apply elem_of_nil in Hin.
Qed.

(** ** [showTemporaryMessage] *)

Lemma fires_after t0 ms d cb :
  1 < d → fires t0 ms (t0 + d, cb) ↔ S ms = d.
Proof. unfold fires, due. simpl. lia. Qed.

Section notification.
Context (message : string) (st : State) (Hok : overlay_ok st).

Local Abbreviation messageBox := (length (heap st)).
Local Abbreviation st1 := (showTemporaryMessage message st).
Local Abbreviation box0 := (messageBoxElement message (body st)).
Local Abbreviation box1 := (set_opac "1" box0).
Local Abbreviation box2 :=
  (set_listeners [(TransitionEnd, RemoveMessageBox messageBox)] (set_opac "0" box1)).
Local Abbreviation overlay := (overlay_is messageBox box0).

Lemma avoids_dec tg r : Decision (avoids tg r).
Proof. unfold avoids. apply _. Qed.

Lemma overlay_start : overlay box0 st1.
Proof using Hok.
  split; [apply showTemporaryMessage_heap|].
  intros q pr tg id Hq Hin. destruct Hok as [_ Hr].
  assert (∀ r, ¬ avoids tg r → r < length (heap st) ∧ r ≠ body st) as H.
  { intros r. by eapply Hr. }
  split.
  - destruct (avoids_dec tg messageBox) as [|Hn]; [done|].
    apply H in Hn. unfold messageBox in Hn. lia.
  - intros r [= <-]. destruct (avoids_dec tg (body st)) as [|Hn]; [done|].
    by apply H in Hn as [_ ?].
Qed.

(** A callback of the old queue does not touch the overlay. *)
Lemma old_timer_keeps_overlay tm s e :
  tm ∈ timers st → parentNode e = PElement (body st) →
  overlay e s → overlay e (run_callback (snd tm) s).
Proof using Hok.
  intros Hin Hpar [He Hav]. destruct Hok as [Hb _].
  destruct tm as [t [b|b|q id]]; simpl.
  - assert (b < messageBox) by (eapply Hb; eauto).
    split; [|done]. simpl. rewrite list_lookup_alter_ne by lia. done.
  - assert (b < messageBox) by (eapply Hb; eauto).
    split; [|done]. simpl. rewrite !list_lookup_alter_ne by lia. done.
  - split; [|by apply resolve_renders_avoid].
    apply resolve_frame; [done|].
    intros q' pr tg id' Hq' Hin'. destruct (Hav q' pr tg id' Hq' Hin') as [H1 H2].
    split; [done|]. intros r Hr. apply H2. simpl. congruence.
Qed.

Lemma overlay_timeline (ms : nat) :
  overlay (if decide (ms < 10) then box0
           else if decide (ms < 2000) then box1 else box2)
    (advance ms st1).
Proof using Hok.
  induction ms as [|ms IH]; [apply overlay_start|].
  destruct (advance_S_split (timers st)
              [(now st + 10, FadeIn messageBox); (now st + 2000, FadeOut messageBox)]
              ms st1 (showTemporaryMessage_timers message st))
    as (base & -> & Hheap & Hprom & _).
  set (e := if decide (ms < 10) then box0
            else if decide (ms < 2000) then box1 else box2) in IH.
  assert (parentNode e = PElement (body st)) as Hpar.
  { unfold e. by repeat case_decide. }
  assert (overlay e (run_timers (filter (fires (now st1) ms) (timers st)) base)) as Hold.
  { apply (run_timers_ind (overlay e)).
    - intros tm s [_ Hin]%list_elem_of_filter. by apply old_timer_keeps_overlay.
    - destruct IH as [He Hav]. split; [by rewrite Hheap|].
      intros q pr tg id Hq. rewrite Hprom in Hq. by apply (Hav q pr tg id). }
  destruct Hold as [He Hav].
  change (now st1) with (now st) in *.
  destruct (decide (S ms = 10)) as [H10|H10];
    [|destruct (decide (S ms = 2000)) as [H2000|H2000]].
  - (* the fade-in timer *)
    rewrite filter_cons_True by (by apply fires_after; lia).
    rewrite filter_cons_False by (rewrite fires_after; lia). rewrite filter_nil.
    assert (e = box0) as Heq by (unfold e; repeat case_decide; (done || lia)).
    rewrite Heq in He.
    rewrite decide_False, decide_True by lia.
    split; [|done]. simpl. rewrite list_lookup_alter_eq. by rewrite He.
  - (* the fade-out timer *)
    rewrite filter_cons_False by (rewrite fires_after; lia).
    rewrite filter_cons_True by (by apply fires_after; lia). rewrite filter_nil.
    assert (e = box1) as Heq by (unfold e; repeat case_decide; (done || lia)).
    rewrite Heq in He.
    rewrite !decide_False by lia.
    split; [|done]. simpl. rewrite !list_lookup_alter_eq. by rewrite He.
  - (* neither *)
    rewrite !filter_cons_False by (rewrite fires_after; lia). rewrite filter_nil.
    split; [|done]. simpl. rewrite He. f_equal. unfold e.
    repeat case_decide; (done || lia).
Qed.
End notification.

(** C8. The overlay that [showTemporaryMessage] creates is a child of the
    body with opacity 0 until 10 ms have passed, has opacity 1 from 10 ms
    until 2000 ms, and from 2000 ms on has opacity 0 and the
    [transitionend] listener, while it is still a child of the body: the
    passing of time alone never removes it.  A [transitionend] event
    before 2000 ms (the end of the fade-in) changes nothing; one from
    2000 ms on (the end of the fade-out) removes the overlay from its
    parent. *)
Theorem notification_timeline message st :
  overlay_ok st →
  let messageBox := length (heap st) in
  let shown := messageBoxElement message (body st) in
  let fading :=
    set_listeners [(TransitionEnd, RemoveMessageBox messageBox)] (set_opac "0" shown) in
  let after (ms : nat) := advance ms (showTemporaryMessage message st) in
  (∀ ms : nat, ms < 10 → heap (after ms) !! messageBox = Some shown) ∧
  (∀ ms : nat, (10 ≤ ms)%nat → ms < 2000 →
     heap (after ms) !! messageBox = Some (set_opac "1" shown)) ∧
  (∀ ms : nat, (2000 ≤ ms)%nat →
     heap (after ms) !! messageBox = Some fading ∧
     parentNode fading = PElement (body st)) ∧
  (∀ ms : nat, ms < 2000 →
     dispatchEvent TransitionEnd messageBox (after ms) = after ms) ∧
  (∀ ms : nat, (2000 ≤ ms)%nat →
     heap (dispatchEvent TransitionEnd messageBox (after ms)) !! messageBox =
       Some (set_parent PNull fading)).
Proof.
  intros Hok messageBox shown fading after.
  assert (∀ ms : nat, heap (after ms) !! messageBox =
            Some (if decide (ms < 10) then shown
                  else if decide (ms < 2000) then set_opac "1" shown else fading))
    as Hat.
  { intros ms. apply (overlay_timeline message st Hok ms). }
  repeat split.
  - intros ms Hms. by rewrite Hat, decide_True.
  - intros ms H1 H2. by rewrite Hat, decide_False, decide_True by lia.
  - by rewrite Hat, !decide_False by lia.
  - intros ms Hms. apply dispatchEvent_none. rewrite Hat.
    by repeat case_decide.
  - intros ms Hms.
    rewrite (dispatchEvent_single TransitionEnd (RemoveMessageBox messageBox)).
    + unfold run_handler. rewrite lookup_remove, decide_True by done.
      by rewrite Hat, !decide_False by lia.
    + by rewrite Hat, !decide_False by lia.
Qed.

(** ** An unknown identifier *)

(** For an identifier that is neither a key of the mock content nor a
    property name of [Object.prototype], the promise is fulfilled with the
    fallback payload: its title contains the identifier, its description
    is the fixed text, and its [buttonText] is [null]. *)
Lemma fetchContentForBlock_unknown_key X st :
  promise_timers_ok st →
  mockContentData !! X = None → X ∉ ObjectPrototype →
  let st1 := fst (fetchContentForBlock X st) in
  let promise := snd (fetchContentForBlock X st) in
  ∀ ms : nat, (500 ≤ ms)%nat →
    ∃ d, pstate <$> promises (advance ms st1) !! promise = Some (Fulfilled d) ∧
      title d = str ("Content Not Found (ID: " +:+ X +:+ ")") ∧
      description d = str "The content for this specific block could not be loaded. Please verify the block ID and content source configuration." ∧
      buttonText d = null ∧ truthy (buttonText d) = false.
Proof.
  intros Hok Hkey Hproto st1 promise ms Hms.
  exists (Payload (fallbackPayload X)). split; [|done].
  subst st1 promise. rewrite fetchContentForBlock_promise.
  rewrite (fetch_fulfilled X st Hok ms Hms). simpl.
  by rewrite (resolvedData_fallback X Hkey Hproto).
Qed.

(** ** A sample page *)

Lemma samplePage_targets blockId :
  capturedTargets (samplePage blockId) = sampleTargets.
Proof. reflexivity. Qed.

(** C4 (the code does not do what the claim says).  [constructor] is not
    a key of the mock content, yet the lookup of line 156 finds the
    property that every object inherits from [Object.prototype]; the
    promise is fulfilled with that value and not with the fallback
    payload.  The value has no [title], so the page shows the default title
    instead of a title that contains the identifier. *)
Theorem fetchContentForBlock_constructor :
  let st := advance 500 (init (samplePage (Some "constructor"))) in
  mockContentData !! "constructor" = None ∧
  pstate <$> promises st !! 0 = Some (Fulfilled (Inherited "constructor")) ∧
  title (Inherited "constructor") = undefined ∧
  text_at st 3 = Some defaultTitle.
Proof. vm_compute. done. Qed.

(** ** The theorems at the sample page *)

Lemma sampleTargets_ok blockId : targets_ok sampleTargets (samplePage blockId).
Proof. repeat split; intros r [= <-]; eexists; split; reflexivity. Defined.

Lemma samplePage_timers_ok blockId : promise_timers_ok (samplePage blockId).
Proof. intros t q id H. by apply elem_of_nil in H. Defined.

Lemma second_render_keeps_first_handler_witness :
  let st := samplePage None in
  let d1 := samplePayload "T" "A" in
  let d2 := samplePayload "T" "B" in
  let st1 := fst (renderContentBlock sampleTargets d1 st) in
  let st2 := fst (renderContentBlock sampleTargets d2 st1) in
  (targets_ok sampleTargets st ∧
   blockButtonElement sampleTargets = Some 5 ∧
   truthy (buttonText d1) = true ∧ truthy (buttonText d2) = true ∧
   renderContentBlock sampleTargets d1 st = (st1, Normal)) ∧
  snd (renderContentBlock sampleTargets d2 st1) = Threw TypeError ∧
  listeners <$> heap st2 !! length (heap st) = Some [(Click, ClickHandler d1)] ∧
  text_at st2 (length (heap st)) = Some (ToString (buttonText d1)) ∧
  heap (dispatchEvent Click (length (heap st)) st2) !! length (heap st2) =
    Some (messageBoxElement (clickMessage d1) (body st2)) ∧
  (ToString (buttonText d1) ≠ ToString (buttonText d2) →
   clickMessage d1 ≠ clickMessage d2).
Proof.
  intros st d1 d2 st1 st2.
  assert (renderContentBlock sampleTargets d1 st = (st1, Normal)) as Hr.
  { lazy. reflexivity. }
  split.
  { exact (conj (sampleTargets_ok None)
             (conj eq_refl (conj eq_refl (conj eq_refl Hr)))). }
  exact (second_render_keeps_first_handler sampleTargets d1 d2 st st1 5
           (sampleTargets_ok None) eq_refl eq_refl eq_refl Hr).
Defined.

Lemma fetchContentForBlock_never_rejects_witness :
  let st := samplePage None in
  let st1 := fst (fetchContentForBlock "no-such-block" st) in
  let promise := snd (fetchContentForBlock "no-such-block" st) in
  promise_timers_ok st ∧
  (∀ (ms : nat) e, pstate <$> promises (advance ms st1) !! promise ≠ Some (Rejected e)) ∧
  (∀ ms : nat, (500 ≤ ms)%nat →
     pstate <$> promises (advance ms st1) !! promise =
       Some (Fulfilled (resolvedData "no-such-block"))).
Proof.
  intros st st1 promise. split; [apply samplePage_timers_ok|].
  exact (fetchContentForBlock_never_rejects "no-such-block" st
           (samplePage_timers_ok None)).
Defined.

Lemma fetchContentForBlock_known_key_witness :
  let st := samplePage None in
  let st1 := fst (fetchContentForBlock "no-button-info-block" st) in
  let promise := snd (fetchContentForBlock "no-button-info-block" st) in
  let entry :=
    mkPayload (str "Important Update")
      (str "This content block provides vital updates and does not require a call-to-action button, focusing purely on conveying information.")
      undefined undefined in
  (promise_timers_ok st ∧
   mockContentData !! "no-button-info-block" = Some entry) ∧
  (∀ ms : nat, ms < 500 →
     pstate <$> promises (advance ms st1) !! promise = Some Pending) ∧
  (∀ ms : nat, (500 ≤ ms)%nat →
     pstate <$> promises (advance ms st1) !! promise = Some (Fulfilled (Payload entry))).
Proof.
  intros st st1 promise entry.
  assert (mockContentData !! "no-button-info-block" = Some entry) as Hkey.
  { vm_compute. reflexivity. }
  split; [split; [apply samplePage_timers_ok | exact Hkey]|].
  exact (fetchContentForBlock_known_key "no-button-info-block" entry st
           (samplePage_timers_ok None) Hkey).
Defined.

Lemma renderContentBlock_title_description_witness :
  let st := samplePage None in
  let data := Payload (mkPayload (str "") (str "D") undefined undefined) in
  let st' := fst (renderContentBlock sampleTargets data st) in
  targets_ok sampleTargets st ∧
  text_at st' 3 =
    Some (if truthy (title data) then ToString (title data) else defaultTitle) ∧
  text_at st' 4 =
    Some (if truthy (description data) then ToString (description data)
          else defaultDescription).
Proof.
  intros st data st'. split; [apply sampleTargets_ok|].
  destruct (renderContentBlock_title_description sampleTargets data st
              (sampleTargets_ok None)) as (Ht & Hd & _).
  split; [exact (Ht 3 eq_refl) | exact (Hd 4 eq_refl)].
Defined.

Lemma renderContentBlock_hides_button_witness :
  let st := samplePage None in
  let data := Payload (mkPayload (str "T") (str "D") undefined undefined) in
  (targets_ok sampleTargets st ∧ truthy (buttonText data) = false) ∧
  snd (renderContentBlock sampleTargets data st) = Normal ∧
  ∃ e', heap (fst (renderContentBlock sampleTargets data st)) !! 5 = Some e' ∧
    forget_parent e' =
      forget_parent (set_disp "none" (sampleElement "blockButton" None (PElement 2))).
Proof.
  intros st data. split; [split; [apply sampleTargets_ok | reflexivity]|].
  destruct (renderContentBlock_hides_button sampleTargets data st
              (sampleTargets_ok None)) as [Hfalsy _].
  destruct (Hfalsy eq_refl) as [Hn Hb]. split; [exact Hn|].
  destruct (Hb 5 _ eq_refl eq_refl) as (e' & He' & Hfp & _).
  exists e'. split; [exact He' | exact Hfp].
Defined.

Lemma click_logs_and_notifies_witness :
  let st := samplePage None in
  let data := samplePayload "T" "Go" in
  let st1 := fst (renderContentBlock sampleTargets data st) in
  let st2 := dispatchEvent Click (length (heap st)) st1 in
  (blockButtonElement sampleTargets = Some 5 ∧
   truthy (buttonText data) = true ∧ truthy (buttonLink data) = true ∧
   renderContentBlock sampleTargets data st = (st1, Normal)) ∧
  listeners <$> heap st1 !! length (heap st) = Some [(Click, ClickHandler data)] ∧
  location st2 = location st1 ∧
  console st2 =
    console st1 ++ [(LLog, ["Content Block: Navigating to:"; ToString (buttonLink data)])] ∧
  heap st2 !! length (heap st1) = Some (messageBoxElement (clickMessage data) (body st1)) ∧
  timers st2 =
    timers st1 ++ [(now st1 + 10, FadeIn (length (heap st1)));
                   (now st1 + 2000, FadeOut (length (heap st1)))] ∧
  ∃ pre post, clickMessage data = pre +:+ ToString (buttonText data) +:+ post.
Proof.
  intros st data st1 st2.
  assert (renderContentBlock sampleTargets data st = (st1, Normal)) as Hr.
  { lazy. reflexivity. }
  split; [exact (conj eq_refl (conj eq_refl (conj eq_refl Hr)))|].
  exact (click_logs_and_notifies sampleTargets data st st1 5
           eq_refl eq_refl eq_refl Hr).
Defined.

Lemma oneNotification_ok : overlay_ok (showTemporaryMessage "first" (samplePage None)).
Proof.
  split.
  - intros t b H. rewrite showTemporaryMessage_timers in H.
    destruct (showTemporaryMessage_heap "first" (samplePage None)) as [_ ->].
    change (timers (samplePage None)) with (@nil (nat * Callback)) in H.
    rewrite app_nil_l, !elem_of_cons, !elem_of_nil in H.
    change (length (heap (samplePage None))) with 6 in *.
    destruct H as [[H|[H|[]]]|[H|[H|[]]]]; simplify_eq; lia.
  - intros q pr tg blockId r Hq.
    change (promises (showTemporaryMessage "first" (samplePage None)))
      with (@nil Promise) in Hq.
    by rewrite lookup_nil in Hq.
Defined.

Lemma notification_timeline_witness :
  let st := showTemporaryMessage "first" (samplePage None) in
  let messageBox := length (heap st) in
  let fading :=
    set_listeners [(TransitionEnd, RemoveMessageBox messageBox)]
      (set_opac "0" (messageBoxElement "second" (body st))) in
  let after (ms : nat) := advance ms (showTemporaryMessage "second" st) in
  overlay_ok st ∧
  heap (after 9) !! messageBox = Some (messageBoxElement "second" (body st)) ∧
  heap (after 10) !! messageBox =
    Some (set_opac "1" (messageBoxElement "second" (body st))) ∧
  (heap (after 2000) !! messageBox = Some fading ∧
   parentNode fading = PElement (body st)) ∧
  dispatchEvent TransitionEnd messageBox (after 310) = after 310 ∧
  heap (dispatchEvent TransitionEnd messageBox (after 2300)) !! messageBox =
    Some (set_parent PNull fading).
Proof.
  intros st messageBox fading after. split; [apply oneNotification_ok|].
  destruct (notification_timeline "second" st oneNotification_ok)
    as (H1 & H2 & H3 & H4 & H5).
  split; [apply (H1 9); lia|]. split; [apply (H2 10); lia|].
  split; [apply (H3 2000); lia|]. split; [apply (H4 310); lia|].
  apply (H5 2300); lia.
Defined.

Lemma init_without_container_witness :
  getElementById "edsContentBlock" emptyPage = None ∧
  init emptyPage = console_error [containerError] emptyPage ∧
  console (init emptyPage) = console emptyPage ++ [(LError, [containerError])] ∧
  timers (init emptyPage) = timers emptyPage ∧
  promises (init emptyPage) = promises emptyPage ∧
  heap (init emptyPage) = heap emptyPage.
Proof.
  assert (getElementById "edsContentBlock" emptyPage = None) as H.
  { lazy. reflexivity. }
  split; [exact H|]. exact (init_without_container emptyPage H).
Defined.

Lemma init_default_blockId_witness :
  let st := samplePage (Some "") in
  let container := sampleElement "edsContentBlock" (Some "") (PElement 1) in
  (getElementById "edsContentBlock" st = Some 2 ∧
   heap st !! 2 = Some container ∧
   (el_blockId container = None ∨ el_blockId container = Some "")) ∧
  init st = fetchAndRender "homepage-hero-block" st ∧
  timers (init st) =
    timers st ++
      [(now st + 500, ResolveFetch (length (promises st)) "homepage-hero-block")].
Proof.
  intros st container.
  assert (getElementById "edsContentBlock" st = Some 2) as H.
  { lazy. reflexivity. }
  split; [split; [exact H | split; [reflexivity | by right]]|].
  exact (init_default_blockId st 2 container H eq_refl (or_intror eq_refl)).
Defined.

(** ** The script run on the sample page *)

(** Two renders in a row: the button of the document is the copy made by
    the first render, with the first text, and a click shows the first
    message. *)
Example second_render_on_sample_page :
  let st1 := fst (renderContentBlock sampleTargets (samplePayload "T" "A") (samplePage None)) in
  let st2 := fst (renderContentBlock sampleTargets (samplePayload "T" "B") st1) in
  getElementById "blockButton" st2 = Some 6 ∧
  text_at st2 6 = Some "A" ∧
  text_at (dispatchEvent Click 6 st2) 8 = Some (clickMessage (samplePayload "T" "A")).
Proof. vm_compute. done. Qed.

(** A render without [buttonText] after one with it works on the same
    stale reference: the element the script holds is hidden, the copy that
    took its place in the document is not. *)
Example hide_after_render_on_sample_page :
  let st1 := fst (renderContentBlock sampleTargets (samplePayload "T" "A") (samplePage None)) in
  let st2 := fst (renderContentBlock sampleTargets
                    (Payload (mkPayload (str "T") (str "D") undefined undefined)) st1) in
  display <$> heap st2 !! 5 = Some "none" ∧
  getElementById "blockButton" st2 = Some 6 ∧
  display <$> heap st2 !! 6 = Some "block".
Proof. vm_compute. done. Qed.

(** The whole script for a known block: load, 500 ms, click. *)
Example known_block_on_sample_page :
  let st := advance 500 (init (samplePage (Some "about-us-intro-block"))) in
  text_at st 3 = Some "Our Story: Innovation at Core" ∧
  text_at st 6 = Some "Meet the Team" ∧
  getElementById "blockButton" st = Some 6 ∧
  console (dispatchEvent Click 6 st) =
    console st ++ [(LLog, ["Content Block: Navigating to:"; "/about"])].
Proof. vm_compute. done. Qed.

(** * Further properties of the script *)

(** ** When [renderContentBlock] throws *)

Lemma renderText_detaches t v w d st i e :
  i ≠ t → heap st !! i = Some e → parentNode e = PElement t →
  heap (renderText (Some t) v w d st) !! i = Some (set_parent PNull e).
Proof.
  intros Hne He Hp. unfold renderText.
  destruct (truthy v); rewrite lookup_set_textContent; simpl; rewrite He; simpl;
    rewrite bool_decide_eq_false_2 by done; by rewrite bool_decide_eq_true_2.
Qed.

(** When the button has no parent, or its parent is a target whose text
    the render assigns, the button has no parent once lines 23-36 have
    run. *)
Lemma texts_detach_button tg data st b e :
  targets_ok tg st →
  blockButtonElement tg = Some b → heap st !! b = Some e →
  (parentNode e = PNull ∨
   (∃ t, blockTitleElement tg = Some t ∧ parentNode e = PElement t) ∨
   (∃ d, blockDescriptionElement tg = Some d ∧ parentNode e = PElement d)) →
  heap (renderText (blockDescriptionElement tg) (description data)
          descriptionWarning defaultDescription
          (renderText (blockTitleElement tg) (title data) titleWarning defaultTitle st))
    !! b = Some (set_parent PNull e).
Proof.
  intros Hok Hb He Hcases.
  assert (blockTitleElement tg ≠ Some b) as Htb.
  { intros H. by apply (targets_title_button tg st Hok b b). }
  assert (blockDescriptionElement tg ≠ Some b) as Hdb.
  { intros H. by apply (targets_description_button tg st Hok b b). }
  destruct Hcases as [Hp | [(t & Ht & Hp) | (d & Hd & Hp)]].
  - replace (set_parent PNull e) with e by (destruct e; simpl in *; by subst).
    apply renderText_frame; [done| |by rewrite Hp].
    apply renderText_frame; [done|done|by rewrite Hp].
  - apply renderText_frame; [done| |done].
    rewrite Ht. apply renderText_detaches; [congruence|done|done].
  - rewrite Hd. apply renderText_detaches; [congruence| |done].
    apply renderText_frame; [done|done|].
    intros t Ht. rewrite Hp. intros [= <-].
    by apply (targets_title_description tg st Hok d d).
Qed.

Lemma renderContentBlock_throws tg data st b e :
  targets_ok tg st →
  blockButtonElement tg = Some b → heap st !! b = Some e →
  truthy (buttonText data) = true →
  (parentNode e = PNull ∨
   (∃ t, blockTitleElement tg = Some t ∧ parentNode e = PElement t) ∨
   (∃ d, blockDescriptionElement tg = Some d ∧ parentNode e = PElement d)) →
  snd (renderContentBlock tg data st) = Threw TypeError.
Proof.
  intros Hok Hb He Htext Hcases. unfold renderContentBlock.
  apply (renderButton_detached tg data _ b (set_parent PNull e)); try done.
  by apply texts_detach_button.
Qed.

(** X1. [renderContentBlock] throws (a TypeError, at line 48) exactly when
    there is a button target, [buttonText] is non-empty, and the button has
    no parent or is a child of the title or of the description target,
    whose children the assignments of lines 24-35 remove.  In every other
    case it returns normally. *)
Theorem renderContentBlock_throws_iff tg data st :
  targets_ok tg st →
  snd (renderContentBlock tg data st) = Threw TypeError ↔
  ∃ b e, blockButtonElement tg = Some b ∧ heap st !! b = Some e ∧
    truthy (buttonText data) = true ∧
    (parentNode e = PNull ∨
     (∃ t, blockTitleElement tg = Some t ∧ parentNode e = PElement t) ∨
     (∃ d, blockDescriptionElement tg = Some d ∧ parentNode e = PElement d)).
Proof.
  intros Hok. split.
  - intros Hthrow.
    destruct (blockButtonElement tg) as [b|] eqn:Hb.
    2:{ unfold renderContentBlock in Hthrow.
        by rewrite renderButton_none in Hthrow. }
    destruct (proj2 (proj2 Hok) b Hb) as (e & He & _).
    destruct (truthy (buttonText data)) eqn:Htext.
    2:{ unfold renderContentBlock in Hthrow.
        by rewrite (renderButton_falsy tg data _ b) in Hthrow. }
    exists b, e. repeat (split; [done|]).
    destruct (parentNode e) as [| |r] eqn:Hp; [by left| |].
    + rewrite (renderContentBlock_returns tg data st b e) in Hthrow;
        try done; by rewrite Hp.
    + destruct (decide (blockTitleElement tg = Some r)) as [Ht|Ht];
        [right; left; eauto|].
      destruct (decide (blockDescriptionElement tg = Some r)) as [Hd|Hd];
        [right; right; eauto|].
      rewrite (renderContentBlock_returns tg data st b e) in Hthrow;
        try done; rewrite Hp; congruence.
  - intros (b & e & Hb & He & Htext & Hcases).
    by apply (renderContentBlock_throws tg data st b e).
Qed.

(** ** The texts and the button after a render *)

Section render_results.
Context (tg : Targets) (data : Data) (st : State) (Hok : targets_ok tg st).

Local Abbreviation st' := (fst (renderContentBlock tg data st)).

Lemma render_title_text t :
  blockTitleElement tg = Some t →
  text_at st' t =
    Some (if truthy (title data) then ToString (title data) else defaultTitle).
Proof using Hok.
  intros Ht. destruct (proj1 Hok t Ht) as (e & He & _).
  unfold renderContentBlock.
  rewrite (same_at_text_at t
    (renderText (blockDescriptionElement tg) (description data)
       descriptionWarning defaultDescription
       (renderText (blockTitleElement tg) (title data) titleWarning defaultTitle st))).
  2:{ apply renderButton_same_at.
      - intros Hb. by apply (targets_title_button tg st Hok t t).
      - rewrite !renderText_length. by eapply lookup_lt_Some. }
  rewrite (same_at_text_at t
    (renderText (blockTitleElement tg) (title data) titleWarning defaultTitle st)).
  2:{ apply same_at_renderText. intros Hd.
      by apply (targets_title_description tg st Hok t t). }
  rewrite Ht. apply renderText_target. eauto.
Qed.

Lemma render_description_text d :
  blockDescriptionElement tg = Some d →
  text_at st' d =
    Some (if truthy (description data) then ToString (description data)
          else defaultDescription).
Proof using Hok.
  intros Hd. destruct (proj1 (proj2 Hok) d Hd) as (e & He & _).
  unfold renderContentBlock.
  rewrite (same_at_text_at d
    (renderText (blockDescriptionElement tg) (description data)
       descriptionWarning defaultDescription
       (renderText (blockTitleElement tg) (title data) titleWarning defaultTitle st))).
  2:{ apply renderButton_same_at.
      - intros Hb. by apply (targets_description_button tg st Hok d d).
      - rewrite !renderText_length. by eapply lookup_lt_Some. }
  rewrite Hd. apply renderText_target.
  apply lookup_lt_is_Some. rewrite renderText_length. by eapply lookup_lt_Some.
Qed.

Lemma render_console :
  console st' =
    console st ++
      (if bool_decide (is_Some (blockTitleElement tg)) && truthy (title data)
       then [] else [(LWarn, [titleWarning])]) ++
      (if bool_decide (is_Some (blockDescriptionElement tg)) && truthy (description data)
       then [] else [(LWarn, [descriptionWarning])]).
Proof.
  unfold renderContentBlock. rewrite renderButton_console.
  by rewrite !renderText_console, <- app_assoc.
Qed.

(** Without [buttonText] the button target ends hidden, and is otherwise
    as it was, up to its parent. *)
Lemma render_hidden_button b e :
  truthy (buttonText data) = false →
  blockButtonElement tg = Some b → heap st !! b = Some e →
  ∃ e', heap st' !! b = Some e' ∧
        forget_parent e' = forget_parent (set_disp "none" e).
Proof using Hok.
  intros Hfalsy Hb He. unfold renderContentBlock.
  rewrite (renderButton_falsy tg data _ b Hb Hfalsy).
  assert (same_at b st
    (renderText (blockDescriptionElement tg) (description data)
       descriptionWarning defaultDescription
       (renderText (blockTitleElement tg) (title data) titleWarning defaultTitle st)))
    as Hsame.
  { eapply same_at_trans; apply same_at_renderText.
    - intros H. by apply (targets_title_button tg st Hok b b).
    - intros H. by apply (targets_description_button tg st Hok b b). }
  destruct (same_at_lookup b _ _ e Hsame He) as (e2 & He2 & Hfp).
  exists (set_disp "none" e2). split.
  - simpl. rewrite list_lookup_alter_eq. by rewrite He2.
  - destruct e, e2. unfold forget_parent, set_parent, set_disp in *.
    simpl in *. congruence.
Qed.
End render_results.

(** ** The error path of the initialisation *)

(** X2. The handler of lines 182-190, whenever it runs (a rejected fetch,
    or a throw inside the [then] callback): it logs the failure with the
    block id, every existing title and description target shows the fixed
    error text, the button target is hidden, and the render inside the
    handler cannot throw, so the handler never fails itself. *)
Theorem catchHandler_shows_error tg blockId error st :
  targets_ok tg st →
  let st' := catchHandler tg blockId error st in
  (∀ s, snd (renderContentBlock tg errorPayload s) = Normal) ∧
  (∀ t, blockTitleElement tg = Some t →
     text_at st' t = Some "Error Loading Content") ∧
  (∀ d, blockDescriptionElement tg = Some d →
     text_at st' d = Some "An unexpected error occurred while fetching the content for this block. Please contact support.") ∧
  (∀ b, blockButtonElement tg = Some b → display <$> heap st' !! b = Some "none") ∧
  console st' =
    console st ++ [fetchError blockId] ++
      (if bool_decide (is_Some (blockTitleElement tg)) then [] else [(LWarn, [titleWarning])]) ++
      (if bool_decide (is_Some (blockDescriptionElement tg)) then []
       else [(LWarn, [descriptionWarning])]).
Proof.
  intros Hok st'. subst st'. unfold catchHandler.
  set (s0 := console_error _ st).
  assert (targets_ok tg s0) as Hok0 by done.
  split; [|split; [|split; [|split]]].
  - intros s. unfold renderContentBlock.
    destruct (blockButtonElement tg) as [b|] eqn:Hb.
    + by rewrite (renderButton_falsy tg errorPayload _ b).
    + by rewrite renderButton_none.
  - intros t Ht. by rewrite (render_title_text tg errorPayload s0 Hok0 t Ht).
  - intros d Hd. by rewrite (render_description_text tg errorPayload s0 Hok0 d Hd).
  - intros b Hb. destruct (proj2 (proj2 Hok0) b Hb) as (e & He & _).
    destruct (render_hidden_button tg errorPayload s0 Hok0 b e eq_refl Hb He)
      as (e' & -> & Hfp).
    simpl. f_equal. by apply forget_parent_fields in Hfp as (_ & _ & _ & -> & _).
  - rewrite render_console. simpl. rewrite !andb_true_r.
    by rewrite <- !app_assoc.
Qed.

(** ** The initialisation from load to render *)

Lemma with_now_with_now n m st : with_now n (with_now m st) = with_now n st.
Proof. done. Qed.

Lemma tick_idle st :
  timers st = [] → tick st = with_now (S (now st)) st.
Proof. intros H. unfold tick. rewrite H. destruct st. simpl in *. by subst. Qed.

Lemma advance_idle (ms : nat) st :
  timers st = [] → advance ms st = with_now (now st + ms) st.
Proof.
  intros H. induction ms as [|ms IH].
  - simpl. rewrite Nat.add_0_r. by destruct st.
  - rewrite advance_S, IH, tick_idle by done. simpl.
    rewrite with_now_with_now. f_equal. lia.
Qed.

Lemma advance_add (a b : nat) st : advance (a + b) st = advance b (advance a st).
Proof.
  induction b as [|b IH]; [by rewrite Nat.add_0_r|].
  by rewrite Nat.add_succ_r, !advance_S, IH.
Qed.

Section init_timeline_facts.
Context (st : State) (c : nat).
Context (Hidle : timers st = []).
Context (Hc : getElementById "edsContentBlock" st = Some c).

Local Abbreviation blockId := (chosenBlockId c st).
Local Abbreviation reaction := (ThenRenderCatch (capturedTargets st) blockId).
Local Abbreviation rendered :=
  (run_reaction reaction (Fulfilled (resolvedData blockId)) (loadedPage blockId st)).

Lemma init_waiting :
  init st =
    mkState (heap st) (body st) (location st) (console st ++ [fetchLog blockId])
      (now st) [(now st + 500, ResolveFetch (length (promises st)) blockId)]
      (promises st ++ [mkPromise Pending [reaction]]).
Proof using Hidle Hc.
  rewrite (init_with_container st c Hc), fetchAndRender_state. by rewrite Hidle.
Qed.

Lemma init_before (ms : nat) :
  ms < 500 → advance ms (init st) = with_now (now st + ms) (init st).
Proof using Hidle Hc.
  rewrite init_waiting. induction ms as [|ms IH]; intros Hms.
  - simpl. by rewrite Nat.add_0_r.
  - rewrite advance_S, IH by lia. unfold tick. simpl.
    rewrite !filter_cons_False, !filter_nil by (unfold due; simpl; lia).
    rewrite filter_cons_True by (unfold due; simpl; lia).
    rewrite filter_nil. unfold run_timers, with_now, with_timers. simpl.
    f_equal. lia.
Qed.

Lemma init_at_500 : advance 500 (init st) = rendered.
Proof using Hidle Hc.
  change 500 with (S 499). rewrite advance_S, init_before by lia.
  rewrite init_waiting. unfold tick. simpl.
  rewrite !filter_cons_True, !filter_nil by (unfold due; simpl; lia).
  rewrite filter_cons_False by (unfold due; simpl; lia).
  simpl. unfold resolve. simpl.
  rewrite lookup_app_r by done. rewrite Nat.sub_diag. simpl.
  match goal with |- context [renderContentBlock _ _ ?X] =>
    replace X with (loadedPage blockId st); [done|] end.
  unfold loadedPage, with_promises, with_timers, with_now. simpl.
  rewrite insert_app_r_alt by done. rewrite Nat.sub_diag. simpl.
  f_equal. lia.
Qed.

Lemma init_after (ms : nat) :
  (500 ≤ ms)%nat → advance ms (init st) = with_now (now st + ms) rendered.
Proof using Hidle Hc.
  intros Hms. replace ms with (500 + (ms - 500)) at 1 by lia.
  rewrite advance_add, init_at_500.
  destruct (run_reaction_env reaction (Fulfilled (resolvedData blockId))
              (loadedPage blockId st)) as (_ & _ & Hnow & Htimers & _).
  rewrite advance_idle by done. rewrite Hnow. simpl. f_equal. lia.
Qed.
End init_timeline_facts.

(** X3. On a page with the container and an empty timer queue the script
    does nothing but log the fetch until 500 ms have passed: the page is
    as the initialisation left it, with only the clock advanced.  At
    500 ms the promise is fulfilled and the reaction of lines 179-190 runs,
    once; from then on the page is the result of that one run, with an
    empty timer queue. *)
Theorem init_timeline st c :
  timers st = [] →
  getElementById "edsContentBlock" st = Some c →
  let blockId := chosenBlockId c st in
  let rendered :=
    run_reaction (ThenRenderCatch (capturedTargets st) blockId)
      (Fulfilled (resolvedData blockId)) (loadedPage blockId st) in
  (heap (init st) = heap st ∧ console (init st) = console st ++ [fetchLog blockId]) ∧
  (∀ ms : nat, ms < 500 → advance ms (init st) = with_now (now st + ms) (init st)) ∧
  (∀ ms : nat, (500 ≤ ms)%nat →
     advance ms (init st) = with_now (now st + ms) rendered) ∧
  timers rendered = [].
Proof.
  intros Hidle Hc blockId rendered. split; [|split; [|split]].
  - by rewrite (init_waiting st c Hidle Hc).
  - intros ms Hms. by apply (init_before st c).
  - intros ms Hms. by apply (init_after st c).
  - by destruct (run_reaction_env (ThenRenderCatch (capturedTargets st) blockId)
                   (Fulfilled (resolvedData blockId)) (loadedPage blockId st))
      as (_ & _ & _ & ? & _).
Qed.

(** ** What a notification adds to the page *)

Lemma showTemporaryMessage_appends message st :
  parents_in_heap st →
  heap (showTemporaryMessage message st) =
    heap st ++ [messageBoxElement message (body st)].
Proof.
  intros Hwf. apply list_eq. intros i.
  destruct (decide (i = length (heap st))) as [->|Hne].
  - rewrite (proj1 (showTemporaryMessage_heap message st)).
    rewrite lookup_app_r by done. by rewrite Nat.sub_diag.
  - unfold showTemporaryMessage, createElement, setTimeout, appendChild,
      set_textContent, set_opacity. simpl.
    rewrite list_lookup_alter_ne by done.
    rewrite list_lookup_imap, list_lookup_alter_ne by done.
    destruct (decide (i < length (heap st))) as [Hlt|Hge].
    + rewrite !lookup_app_l by done.
      destruct (heap st !! i) as [e|] eqn:He; [|done]. simpl.
      rewrite bool_decide_eq_false_2 by done.
      rewrite bool_decide_eq_false_2; [done|].
      intros Hp. specialize (Hwf i e _ He Hp). lia.
    + rewrite !lookup_ge_None_2; [done| |]; rewrite length_app; simpl; lia.
Qed.

Lemma showTemporaryMessage_state message st :
  parents_in_heap st →
  showTemporaryMessage message st =
    mkState (heap st ++ [messageBoxElement message (body st)])
      (body st) (location st) (console st) (now st)
      (timers st ++ [(now st + 10, FadeIn (length (heap st)));
                     (now st + 2000, FadeOut (length (heap st)))])
      (promises st).
Proof.
  intros Hwf.
  pose proof (showTemporaryMessage_appends message st Hwf) as Hheap.
  destruct (showTemporaryMessage_rest message st) as (Hl & Hc & Hn & Hb & Hp).
  pose proof (showTemporaryMessage_timers message st) as Ht.
  destruct (showTemporaryMessage message st) as [h b l c n t p].
  simpl in *. by subst.
Qed.

(** X4. On a page whose parents, the body included, are all in the heap,
    [showTemporaryMessage] adds exactly one element, the overlay, as a
    child of the body with opacity 0 and the message as its text, and
    changes no existing element; it sets exactly the two timers of lines
    93 and 98 and leaves the console, the location and the promises
    alone.  A second call adds a second overlay next to the first:
    nothing is reused or merged. *)
Theorem showTemporaryMessage_adds_one message st :
  parents_in_heap st → body st < length (heap st) →
  let st' := showTemporaryMessage message st in
  let messageBox := length (heap st) in
  st' =
    mkState (heap st ++ [messageBoxElement message (body st)])
      (body st) (location st) (console st) (now st)
      (timers st ++ [(now st + 10, FadeIn messageBox);
                     (now st + 2000, FadeOut messageBox)])
      (promises st) ∧
  ∀ message2,
    heap (showTemporaryMessage message2 st') =
      heap st ++ [messageBoxElement message (body st);
                  messageBoxElement message2 (body st)].
Proof.
  intros Hwf Hbody st' messageBox.
  assert (heap st' = heap st ++ [messageBoxElement message (body st)]) as Hheap.
  { by apply showTemporaryMessage_appends. }
  assert (parents_in_heap st') as Hwf'.
  { intros i e r He Hp. rewrite Hheap in He |- *. rewrite length_app. simpl.
    destruct (decide (i < length (heap st))) as [Hlt|Hge].
    - rewrite lookup_app_l in He by done. specialize (Hwf i e r He Hp). lia.
    - destruct (decide (i = length (heap st))) as [->|Hne].
      + rewrite lookup_app_r, Nat.sub_diag in He by done.
        injection He as <-. injection Hp as <-. lia.
      + rewrite lookup_ge_None_2 in He; [done|]. rewrite length_app. simpl. lia. }
  split.
  - by apply showTemporaryMessage_state.
  - intros message2. rewrite (showTemporaryMessage_appends message2 st' Hwf').
    rewrite Hheap, <- app_assoc. done.
Qed.

(** X5. For every payload, the click listener of lines 50-58 logs the
    navigation exactly when [buttonLink] is non-empty, and in both cases
    shows the notification: the page gains the one overlay with the text
    [Action: "<buttonText>" clicked!] and its two timers, and nothing
    else changes (no element, not the location, no promise). *)
Theorem click_listener_effect data st :
  parents_in_heap st →
  run_handler (ClickHandler data) st =
    mkState (heap st ++ [messageBoxElement (clickMessage data) (body st)])
      (body st) (location st)
      (console st ++
         (if truthy (buttonLink data)
          then [(LLog, ["Content Block: Navigating to:"; ToString (buttonLink data)])]
          else []))
      (now st)
      (timers st ++ [(now st + 10, FadeIn (length (heap st)));
                     (now st + 2000, FadeOut (length (heap st)))])
      (promises st).
Proof.
  intros Hwf. unfold run_handler. destruct (truthy (buttonLink data)).
  - by rewrite showTemporaryMessage_state.
  - rewrite showTemporaryMessage_state by done. by rewrite app_nil_r.
Qed.

(** ** What a render keeps of every element *)

Lemma keeps_refl e : keeps e e.
Proof. repeat split; auto. Qed.

Lemma keeps_trans e1 e2 e3 : keeps e1 e2 → keeps e2 e3 → keeps e1 e3.
Proof.
  intros (Hid1 & Hb1 & Hp1 & Hl1) (Hid2 & Hb2 & Hp2 & Hl2).
  split; [congruence|]. split; [congruence|]. split; [|by etrans].
  destruct Hp2 as [Hp2|Hp2]; [|by right].
  destruct Hp1 as [Hp1|Hp1]; [left|right]; congruence.
Qed.

Lemma keeps_set_text s e : keeps e (set_text s e).
Proof. repeat split; auto. Qed.
Lemma keeps_set_disp s e : keeps e (set_disp s e).
Proof. repeat split; auto. Qed.
Lemma keeps_detach e : keeps e (set_parent PNull e).
Proof. repeat split; auto. Qed.

Lemma heap_keeps_refl st : heap_keeps st st.
Proof. intros i e He. exists e. split; [done | apply keeps_refl]. Qed.

Lemma heap_keeps_trans st1 st2 st3 :
  heap_keeps st1 st2 → heap_keeps st2 st3 → heap_keeps st1 st3.
Proof.
  intros H12 H23 i e He. destruct (H12 i e He) as (e2 & He2 & Hk2).
  destruct (H23 i e2 He2) as (e3 & He3 & Hk3).
  exists e3. split; [done | by eapply keeps_trans].
Qed.

Lemma heap_keeps_alter f el st :
  (∀ e, keeps e (f e)) → heap_keeps st (with_heap (alter f el (heap st)) st).
Proof.
  intros Hf i e He. simpl. rewrite list_lookup_alter.
  destruct (decide (el = i)) as [->|]; rewrite He; simpl; eauto using keeps_refl.
Qed.

Lemma heap_keeps_same_heap st st' : heap st' = heap st → heap_keeps st st'.
Proof. intros H i e He. rewrite H. eauto using keeps_refl. Qed.

Lemma heap_keeps_set_textContent el s st : heap_keeps st (set_textContent el s st).
Proof.
  intros i e He. rewrite lookup_set_textContent, He. simpl.
  eexists. split; [done|].
  repeat case_bool_decide;
    auto using keeps_refl, keeps_set_text, keeps_detach.
Qed.

Lemma heap_keeps_renderText target v w d st :
  heap_keeps st (renderText target v w d st).
Proof.
  unfold renderText. destruct target as [el|]; [|by apply heap_keeps_same_heap].
  destruct (truthy v); [apply heap_keeps_set_textContent|].
  eapply heap_keeps_trans; [|apply heap_keeps_set_textContent].
  by apply heap_keeps_same_heap.
Qed.

Lemma heap_keeps_renderButton tg data st :
  heap_keeps st (fst (renderButton tg data st)).
Proof.
  unfold renderButton. destruct (blockButtonElement tg) as [b|]; [|apply heap_keeps_refl].
  destruct (truthy (buttonText data)).
  2:{ apply (heap_keeps_alter (set_disp "none") b st), keeps_set_disp. }
  set (st2 := set_display b "block" (set_textContent b _ st)).
  assert (heap_keeps st st2) as H2.
  { eapply heap_keeps_trans; [apply heap_keeps_set_textContent|].
    apply (heap_keeps_alter (set_disp "block")), keeps_set_disp. }
  clearbody st2. eapply heap_keeps_trans; [exact H2|].
  destruct (cloneNode b st2) as [st3 n] eqn:Hc.
  assert (n = length (heap st2) ∧
          ∀ i e, heap st2 !! i = Some e → heap st3 !! i = Some e) as [-> Hst3].
  { inversion Hc. split; [done|]. intros i e He. simpl. by apply lookup_app_l_Some. }
  assert (∀ p, heap_keeps st2
            (addEventListener (length (heap st2)) Click (ClickHandler data)
               (replaceChild p (length (heap st2)) b st3))) as H4.
  { intros p i e He.
    assert (i < length (heap st2)) as Hlt by (by eapply lookup_lt_Some).
    rewrite lookup_addEventListener, decide_False by lia.
    unfold replaceChild. simpl. rewrite list_lookup_alter.
    destruct (decide (b = i)) as [->|Hne].
    - rewrite list_lookup_alter_ne by lia. rewrite (Hst3 i e He). simpl.
      eauto using keeps_detach.
    - rewrite list_lookup_alter_ne by lia. rewrite (Hst3 i e He).
      eauto using keeps_refl. }
  destruct (get_parentNode b st3); simpl; [|apply H4..].
  intros i e He. exists e. split; [by apply Hst3 | apply keeps_refl].
Qed.

Lemma heap_keeps_renderContentBlock tg data st :
  heap_keeps st (fst (renderContentBlock tg data st)).
Proof.
  unfold renderContentBlock.
  eapply heap_keeps_trans; [apply heap_keeps_renderText|].
  eapply heap_keeps_trans; [apply heap_keeps_renderText|].
  apply heap_keeps_renderButton.
Qed.

(** ** The button of the document after a render *)

Lemma parent_chain_PNull h l : ¬ parent_chain h PNull l.
Proof. inversion 1. Qed.

Lemma parent_chain_members h p l r :
  parent_chain h p l → r ∈ l →
  ∃ x, h !! r = Some x ∧ ∀ r', parentNode x = PElement r' → r' ∈ l.
Proof.
  induction 1 as [|r0 e l He Hc IH]; intros Hin; [by apply elem_of_nil in Hin|].
  apply elem_of_cons in Hin as [->|Hin].
  - exists e. split; [done|]. intros r' Hp. rewrite Hp in Hc.
    inversion Hc; subst. right. by left.
  - destruct (IH Hin) as (x & Hx & Hnext). exists x. split; [done|].
    intros r' Hp. right. by apply Hnext.
Qed.

Lemma parent_chain_transfer h h' p l :
  parent_chain h p l → (∀ r, r ∈ l → h' !! r = h !! r) → parent_chain h' p l.
Proof.
  induction 1 as [|r e l He Hc IH]; intros Hsame; [constructor|].
  econstructor.
  - rewrite Hsame; [done | by left].
  - apply IH. intros r' Hr'. apply Hsame. by right.
Qed.

(** An element that is in the document later on was in the document
    before: nothing is ever put back into a tree. *)
Lemma parent_chain_back st st' p l :
  heap_keeps st st' → parents_in_heap st →
  (∀ r, p = PElement r → r < length (heap st)) →
  parent_chain (heap st') p l → parent_chain (heap st) p l.
Proof.
  intros Hk Hwf Hp Hc. induction Hc as [|r y l Hy Hc IH]; [constructor|].
  destruct (lookup_lt_is_Some_2 (heap st) r) as [x Hx]; [by apply Hp|].
  destruct (Hk r x Hx) as (y' & Hy' & _ & _ & Hpar & _).
  rewrite Hy in Hy'. injection Hy' as <-.
  destruct Hpar as [Hpar|Hpar].
  2:{ rewrite Hpar in Hc. by apply parent_chain_PNull in Hc. }
  econstructor; [done|]. rewrite <- Hpar. apply IH.
  intros r' Hr'. apply (Hwf r x r' Hx). congruence.
Qed.

(** An element that is in the document later on was in the document
    before. *)
Lemma in_doc_back st st' j :
  heap_keeps st st' → parents_in_heap st → j < length (heap st) →
  in_doc st' j → in_doc st j.
Proof.
  intros Hk Hwf Hj (y & l & Hy & Hc).
  destruct (lookup_lt_is_Some_2 (heap st) j Hj) as [x Hx].
  destruct (Hk j x Hx) as (y' & Hy' & _ & _ & Hpar & _).
  rewrite Hy in Hy'. injection Hy' as <-.
  destruct Hpar as [Hpar|Hpar].
  2:{ rewrite Hpar in Hc. by apply parent_chain_PNull in Hc. }
  exists x, l. split; [done|]. rewrite <- Hpar.
  apply (parent_chain_back st st'); [done|done| |done].
  intros r Hr. apply (Hwf j x r Hx). congruence.
Qed.

(** [document.getElementById] finds the one element of the document that
    has the id. *)
Lemma getElementById_found id st n x l :
  heap st !! n = Some x → el_id x = id →
  parent_chain (heap st) (parentNode x) l →
  (∀ j y, j ≠ n → heap st !! j = Some y → el_id y = id → ¬ in_doc st j) →
  getElementById id st = Some n.
Proof.
  intros Hx Hid Hl Hu. unfold getElementById.
  rewrite (proj2 (list_find_Some _ (heap st) n x)); [done|].
  split; [done|]. split.
  - split; [done|]. apply in_document_chain. exists l.
    split; [done|]. by eapply parent_chain_bound.
  - intros j y Hy Hj [Hidy Hdoc].
    apply in_document_chain in Hdoc as (l' & Hl' & _).
    apply (Hu j y); [lia|done|done|]. by exists y, l'.
Qed.

(** X7. On a page whose parents are in the heap, where the button target
    is in the document, not inside another target, and is the only element
    of the document with the id [blockButton]: a render with a non-empty
    [buttonText] returns normally, and afterwards the element that
    [document.getElementById('blockButton')] finds is the copy made by this
    render.  The copy has the id and the attributes of the button, the new
    text, [display: block], the parent the button had, and this render's
    click listener as its only listener: the listeners the button had
    before are not on it.  The element the script holds is out of the
    document. *)
Theorem render_puts_copy_in_document tg data st b e l :
  targets_ok tg st → parents_in_heap st →
  blockButtonElement tg = Some b → heap st !! b = Some e →
  parent_chain (heap st) (parentNode e) l →
  (∀ r, r ∈ l → avoids tg r) →
  (∀ r x, r ≠ b → heap st !! r = Some x → el_id x = "blockButton" → ¬ in_doc st r) →
  truthy (buttonText data) = true →
  let st1 := fst (renderContentBlock tg data st) in
  let newButton := length (heap st) in
  let shown := set_disp "block" (set_text (ToString (buttonText data)) e) in
  snd (renderContentBlock tg data st) = Normal ∧
  getElementById "blockButton" st1 = Some newButton ∧
  heap st1 !! newButton = Some (set_listeners [(Click, ClickHandler data)] shown) ∧
  heap st1 !! b = Some (set_parent PNull shown) ∧
  ¬ in_doc st1 b.
Proof.
  intros Hok Hwf Hb He Hl Havoid Huniq Htext st1 newButton shown.
  assert (parentNode e ≠ PNull) as Hpn.
  { intros H. rewrite H in Hl. by apply parent_chain_PNull in Hl. }
  assert (∀ r, parentNode e = PElement r → avoids tg r) as Hpar.
  { intros r H. apply Havoid. rewrite H in Hl. inversion Hl; subst. by left. }
  assert (snd (renderContentBlock tg data st) = Normal) as Hnormal.
  { apply (renderContentBlock_returns tg data st b e); try done.
    - intros t Ht Hp. by destruct (Hpar t Hp) as (? & _ & _).
    - intros d Hd Hp. by destruct (Hpar d Hp) as (_ & ? & _). }
  assert (blockTitleElement tg ≠ Some b) as Htb.
  { intros H. by apply (targets_title_button tg st Hok b b). }
  assert (blockDescriptionElement tg ≠ Some b) as Hdb.
  { intros H. by apply (targets_description_button tg st Hok b b). }
  (* the two assignments of the texts leave the button as it is *)
  set (st2 := renderText (blockDescriptionElement tg) (description data)
                descriptionWarning defaultDescription
                (renderText (blockTitleElement tg) (title data) titleWarning
                   defaultTitle st)).
  assert (heap st2 !! b = Some e) as He2.
  { unfold st2. apply renderText_frame; [done| |].
    - apply renderText_frame; [done|done|].
      intros t Ht Hp. by destruct (Hpar t Hp) as (? & _ & _).
    - intros d Hd Hp. by destruct (Hpar d Hp) as (_ & ? & _). }
  assert (renderButton tg data st2 = (st1, Normal)) as Hr.
  { unfold st1, renderContentBlock. fold st2.
    unfold renderContentBlock in Hnormal. fold st2 in Hnormal.
    by destruct (renderButton tg data st2) as [s o]; simpl in *; subst. }
  destruct (renderButton_installs tg data st2 b st1 Hb Htext Hr)
    as (e' & He' & _ & Hlen & Hold & Hnew).
  rewrite He2 in He'. injection He' as <-.
  assert (length (heap st2) = length (heap st)) as Hlen2.
  { unfold st2. by rewrite !renderText_length. }
  rewrite Hlen2 in Hlen, Hnew. fold newButton in Hnew. fold shown in Hnew, Hold.
  assert (¬ in_doc st1 b) as Hout.
  { intros (y & l' & Hy & Hc). rewrite Hold in Hy. injection Hy as <-.
    by apply parent_chain_PNull in Hc. }
  split; [done|]. split; [|done].
  (* the copy is found: it is in the document, and no element before it is *)
  unfold getElementById.
  rewrite (proj2 (list_find_Some _ (heap st1) newButton
                    (set_listeners [(Click, ClickHandler data)] shown))); [done|].
  split; [done|]. split.
  - split.
    + destruct (proj2 (proj2 Hok) b Hb) as (x & Hx & Hid).
      rewrite He in Hx. by injection Hx as <-.
    + apply in_document_chain. exists l.
      assert (parent_chain (heap st1) (parentNode e) l) as Hl1.
      { apply (parent_chain_transfer (heap st)); [done|].
        intros r Hr'. destruct (parent_chain_members _ _ _ _ Hl Hr') as (x & Hx & Hnext).
        rewrite Hx. apply renderContentBlock_frame; [done|by apply Havoid|].
        intros r' Hp. apply Havoid. by apply Hnext. }
      split; [done|]. by eapply parent_chain_bound.
  - intros j y Hy Hj [Hid Hdoc].
    apply in_document_chain in Hdoc as (l' & Hl' & _).
    destruct (lookup_lt_is_Some_2 (heap st) j) as [x Hx]; [done|].
    destruct (heap_keeps_renderContentBlock tg data st j x Hx)
      as (y' & Hy' & Hidx & _ & Hparx & _).
    fold st1 in Hy'. rewrite Hy in Hy'. injection Hy' as <-.
    destruct (decide (j = b)) as [->|Hjb].
    { apply Hout. by exists y, l'. }
    destruct Hparx as [Hparx|Hparx].
    2:{ rewrite Hparx in Hl'. by apply parent_chain_PNull in Hl'. }
    apply (Huniq j x Hjb Hx); [congruence|].
    exists x, l'. split; [done|]. rewrite <- Hparx.
    apply (parent_chain_back st st1); [apply heap_keeps_renderContentBlock|done| |done].
    intros r Hr'. apply (Hwf j x r Hx). congruence.
Qed.

(** ** A render without [buttonText] after one with it *)

(** C6 (the code does not do what the claim says).  [blockButtonElement]
    is looked up once, at line 9, and a render with a non-empty
    [buttonText] puts a copy in the place of that element (lines 47-48).
    So when a render without [buttonText] follows such a render, line 60
    hides the element the script holds, which is out of the document, and
    not the button of the document: what
    [document.getElementById('blockButton')] finds is the copy, and the
    copy is as the earlier render left it, with [display: block], the
    earlier text and the earlier click listener. *)
Theorem hide_after_render_misses_button tg d1 d2 st b e l :
  targets_ok tg st → parents_in_heap st →
  blockButtonElement tg = Some b → heap st !! b = Some e →
  parent_chain (heap st) (parentNode e) l →
  (∀ r, r ∈ l → avoids tg r) →
  (∀ r x, r ≠ b → heap st !! r = Some x → el_id x = "blockButton" → ¬ in_doc st r) →
  truthy (buttonText d1) = true → truthy (buttonText d2) = false →
  let st1 := fst (renderContentBlock tg d1 st) in
  let st2 := fst (renderContentBlock tg d2 st1) in
  let newButton := length (heap st) in
  let shown := set_disp "block" (set_text (ToString (buttonText d1)) e) in
  snd (renderContentBlock tg d1 st) = Normal ∧
  snd (renderContentBlock tg d2 st1) = Normal ∧
  getElementById "blockButton" st2 = Some newButton ∧
  heap st2 !! newButton = Some (set_listeners [(Click, ClickHandler d1)] shown) ∧
  heap st2 !! b = Some (set_parent PNull (set_disp "none" shown)) ∧
  ¬ in_doc st2 b.
Proof.
  intros Hok Hwf Hb He Hl Havoid Huniq Ht1 Ht2 st1 st2 newButton shown.
  assert (parentNode e ≠ PNull) as Hpn.
  { intros H. rewrite H in Hl. by apply parent_chain_PNull in Hl. }
  assert (∀ r, parentNode e = PElement r → avoids tg r) as Hpar.
  { intros r H. apply Havoid. rewrite H in Hl. inversion Hl; subst. by left. }
  assert (snd (renderContentBlock tg d1 st) = Normal) as Hnormal.
  { apply (renderContentBlock_returns tg d1 st b e); try done.
    - intros t Ht Hp. by destruct (Hpar t Hp) as (? & _ & _).
    - intros d Hd Hp. by destruct (Hpar d Hp) as (_ & ? & _). }
  assert (blockTitleElement tg ≠ Some b) as Htb.
  { intros H. by apply (targets_title_button tg st Hok b b). }
  assert (blockDescriptionElement tg ≠ Some b) as Hdb.
  { intros H. by apply (targets_description_button tg st Hok b b). }
  assert (el_id e = "blockButton") as Hid.
  { destruct (proj2 (proj2 Hok) b Hb) as (x & Hx & Hidx). congruence. }
  (* the first render: the copy takes the place of the button *)
  set (sa := renderText (blockDescriptionElement tg) (description d1)
               descriptionWarning defaultDescription
               (renderText (blockTitleElement tg) (title d1) titleWarning
                  defaultTitle st)).
  assert (heap sa !! b = Some e) as Hea.
  { unfold sa. apply renderText_frame; [done| |].
    - apply renderText_frame; [done|done|].
      intros t Ht Hp. by destruct (Hpar t Hp) as (? & _ & _).
    - intros d Hd Hp. by destruct (Hpar d Hp) as (_ & ? & _). }
  assert (renderButton tg d1 sa = (st1, Normal)) as Hr.
  { unfold st1, renderContentBlock. fold sa.
    unfold renderContentBlock in Hnormal. fold sa in Hnormal.
    by destruct (renderButton tg d1 sa) as [s o]; simpl in *; subst. }
  destruct (renderButton_installs tg d1 sa b st1 Hb Ht1 Hr)
    as (e' & He' & _ & Hlen & Hold & Hnew).
  rewrite Hea in He'. injection He' as <-.
  assert (length (heap sa) = length (heap st)) as Hlena.
  { unfold sa. by rewrite !renderText_length. }
  rewrite Hlena in Hlen, Hnew. fold newButton in Hnew. fold shown in Hnew, Hold.
  assert (avoids tg newButton) as Hnb.
  { destruct Hok as (Hidt & Hidd & Hidb).
    repeat split; intros H;
      [pose proof (has_id_lt _ _ _ _ Hidt H)
      |pose proof (has_id_lt _ _ _ _ Hidd H)
      |pose proof (has_id_lt _ _ _ _ Hidb H)]; unfold newButton in *; lia. }
  (* the second render leaves the copy as it is *)
  assert (heap st2 !! newButton =
            Some (set_listeners [(Click, ClickHandler d1)] shown)) as Hnew2.
  { apply renderContentBlock_frame; [done|done|]. intros r Hp. by apply Hpar. }
  (* and hides the element it holds *)
  set (sb := renderText (blockDescriptionElement tg) (description d2)
               descriptionWarning defaultDescription
               (renderText (blockTitleElement tg) (title d2) titleWarning
                  defaultTitle st1)).
  assert (renderContentBlock tg d2 st1 = (set_display b "none" sb, Normal)) as Hr2.
  { unfold renderContentBlock. fold sb. by apply renderButton_falsy. }
  assert (heap sb !! b = Some (set_parent PNull shown)) as Hbb.
  { unfold sb. apply renderText_frame; [done| |done].
    by apply renderText_frame. }
  assert (heap st2 !! b = Some (set_parent PNull (set_disp "none" shown))) as Hold2.
  { unfold st2. rewrite Hr2. simpl.
    rewrite list_lookup_alter_eq. by rewrite Hbb. }
  assert (length (heap st2) = S (length (heap st))) as Hlen2.
  { unfold st2. rewrite Hr2. simpl. rewrite length_alter.
    unfold sb. by rewrite !renderText_length. }
  assert (¬ in_doc st2 b) as Hout.
  { intros (y & l' & Hy & Hc). rewrite Hold2 in Hy. injection Hy as <-.
    by apply parent_chain_PNull in Hc. }
  assert (heap_keeps st st2) as Hk.
  { eapply heap_keeps_trans; apply heap_keeps_renderContentBlock. }
  split; [done|]. split; [by rewrite Hr2|]. split; [|done].
  apply (getElementById_found _ st2 newButton _ l Hnew2); [done| |].
  - apply (parent_chain_transfer (heap st)); [done|].
    intros r Hr'.
    destruct (parent_chain_members _ _ _ _ Hl Hr') as (x & Hx & Hnext).
    rewrite Hx. apply renderContentBlock_frame; [|by apply Havoid|].
    + apply renderContentBlock_frame; [done|by apply Havoid|].
      intros r' Hp. apply Havoid. by apply Hnext.
    + intros r' Hp. apply Havoid. by apply Hnext.
  - intros j y Hj Hy Hidy Hdoc.
    assert (j < length (heap st)) as Hlt.
    { apply lookup_lt_Some in Hy. unfold newButton in Hj. lia. }
    destruct (decide (j = b)) as [->|Hjb]; [done|].
    destruct (lookup_lt_is_Some_2 (heap st) j Hlt) as [x Hx].
    destruct (Hk j x Hx) as (y' & Hy' & Hidx & _).
    rewrite Hy in Hy'. injection Hy' as <-.
    apply (Huniq j x Hjb Hx); [congruence|].
    by apply (in_doc_back st st2).
Qed.

(** ** A render without [buttonText] leaves no trace *)

Lemma imap_same {A} (l : list A) : imap (λ _ x, x) l = l.
Proof. apply list_eq. intros i. rewrite list_lookup_imap. by destruct (l !! i). Qed.

Lemma renderText_heap target v w d st :
  heap (renderText target v w d st) = imap (textStep target (textOf v d)) (heap st).
Proof.
  unfold renderText, textOf. destruct target as [el|]; simpl.
  - by destruct (truthy v).
  - by rewrite imap_same.
Qed.

(** Rendering reads nothing but the heap. *)
Lemma renderButton_heap_only tg data st st' :
  heap st = heap st' →
  heap (fst (renderButton tg data st)) = heap (fst (renderButton tg data st')) ∧
  snd (renderButton tg data st) = snd (renderButton tg data st').
Proof.
  intros H. unfold renderButton.
  destruct (blockButtonElement tg) as [b|]; [|done].
  destruct (truthy (buttonText data)); [|by simpl; rewrite H].
  unfold cloneNode, get_parentNode, set_display, set_textContent. simpl.
  rewrite H.
  destruct (_ !! b) as [[? ? ? ? ? [] ?]|]; simpl; by rewrite ?H.
Qed.

(** Lines 41-42 (or line 60) overwrite the [display] of the button, so
    what it was before makes no difference. *)
Lemma renderButton_display_absorbed tg data st b v :
  blockButtonElement tg = Some b →
  renderButton tg data (set_display b v st) = renderButton tg data st.
Proof.
  intros Hb. unfold renderButton. rewrite Hb.
  assert (∀ s w, set_display b w (set_textContent b s (set_display b v st)) =
                 set_display b w (set_textContent b s st)) as Habs.
  { intros s w. unfold set_display, set_textContent, with_heap. simpl. f_equal.
    apply list_eq. intros i. rewrite !list_lookup_alter, !list_lookup_imap.
    destruct (decide (b = i)) as [->|Hne].
    - rewrite list_lookup_alter_eq. destruct (heap st !! i) as [e|]; [|done].
      simpl. by rewrite bool_decide_eq_true_2.
    - by rewrite list_lookup_alter_ne. }
  destruct (truthy (buttonText data)).
  - by rewrite Habs.
  - unfold set_display, with_heap. simpl. do 2 f_equal.
    rewrite list_alter_alter_eq. by apply list_alter_ext.
Qed.

Lemma texts_twice tgt tgd x1 y1 x2 y2 i e :
  textStep tgd y2 i (textStep tgt x2 i (textStep tgd y1 i (textStep tgt x1 i e))) =
  textStep tgd y2 i (textStep tgt x2 i e).
Proof.
  destruct e as [id bid txt disp op par ls].
  destruct tgt as [t|], tgd as [d|]; unfold textStep; simpl;
    repeat first [done | case_bool_decide; simpl in *; simplify_eq].
Qed.

Lemma texts_hide_commute tgt tgd x y b v i e :
  textStep tgd y i (textStep tgt x i (if decide (b = i) then set_disp v e else e)) =
  (if decide (b = i) then set_disp v (textStep tgd y i (textStep tgt x i e))
   else textStep tgd y i (textStep tgt x i e)).
Proof.
  destruct e as [id bid txt disp op par ls].
  destruct tgt as [t|], tgd as [d|]; unfold textStep; simpl;
    repeat first [done | case_decide; simpl in *; simplify_eq
                 | case_bool_decide; simpl in *; simplify_eq].
Qed.

(** X8. A render whose payload has no [buttonText] leaves no trace on the
    page once another render follows: rendering [d1] and then [d2] gives
    the same elements, and the same outcome, as rendering [d2] alone.  In
    particular rendering such a payload twice is the same as rendering it
    once.  (The warnings of both renders stay in the console.) *)
Theorem render_without_buttonText_leaves_no_trace tg d1 d2 st :
  truthy (buttonText d1) = false →
  let first := fst (renderContentBlock tg d1 st) in
  heap (fst (renderContentBlock tg d2 first)) = heap (fst (renderContentBlock tg d2 st)) ∧
  snd (renderContentBlock tg d2 first) = snd (renderContentBlock tg d2 st).
Proof.
  intros Hfalsy first. subst first. unfold renderContentBlock.
  set (tx := λ (d : Data) (s : State),
    renderText (blockDescriptionElement tg) (description d)
      descriptionWarning defaultDescription
      (renderText (blockTitleElement tg) (title d) titleWarning defaultTitle s)).
  change (heap (fst (renderButton tg d2 (tx d2 (fst (renderButton tg d1 (tx d1 st)))))) =
            heap (fst (renderButton tg d2 (tx d2 st))) ∧
          snd (renderButton tg d2 (tx d2 (fst (renderButton tg d1 (tx d1 st))))) =
            snd (renderButton tg d2 (tx d2 st))).
  assert (∀ d s i, heap (tx d s) !! i =
            (λ e, textStep (blockDescriptionElement tg) (textOf (description d) defaultDescription) i
                    (textStep (blockTitleElement tg) (textOf (title d) defaultTitle) i e))
              <$> heap s !! i) as Htx.
  { intros d s i. unfold tx. rewrite !renderText_heap, !list_lookup_imap.
    by destruct (heap s !! i). }
  destruct (blockButtonElement tg) as [b|] eqn:Hb.
  - rewrite (renderButton_falsy tg d1 _ b Hb Hfalsy). cbn [fst].
    rewrite <- (renderButton_display_absorbed tg d2 (tx d2 st) b "none" Hb).
    apply renderButton_heap_only. apply list_eq. intros i.
    rewrite Htx. simpl. rewrite !list_lookup_alter.
    destruct (decide (b = i)) as [->|Hne].
    + rewrite !Htx. destruct (heap st !! i) as [e|]; [|done]. simpl. f_equal.
      pose proof (texts_hide_commute (blockTitleElement tg) (blockDescriptionElement tg)
                    (textOf (title d2) defaultTitle)
                    (textOf (description d2) defaultDescription) i "none" i
                    (textStep (blockDescriptionElement tg)
                       (textOf (description d1) defaultDescription) i
                       (textStep (blockTitleElement tg)
                          (textOf (title d1) defaultTitle) i e))) as Hc.
      rewrite !decide_True in Hc by done. rewrite Hc. f_equal. apply texts_twice.
    + rewrite !Htx. destruct (heap st !! i) as [e|]; [|done]. simpl. f_equal.
      apply texts_twice.
  - rewrite (renderButton_none tg d1 _ Hb). cbn [fst].
    apply renderButton_heap_only. apply list_eq. intros i.
    rewrite !Htx. destruct (heap st !! i) as [e|]; [|done]. simpl. f_equal.
    apply texts_twice.
Qed.

(** ** The page after the fetch *)

Lemma targets_ok_keeps tg st st' :
  heap_keeps st st' → targets_ok tg st → targets_ok tg st'.
Proof.
  intros Hk (H1 & H2 & H3).
  repeat split; intros r Hr;
    [destruct (H1 r Hr) as (e & He & Hid)
    |destruct (H2 r Hr) as (e & He & Hid)
    |destruct (H3 r Hr) as (e & He & Hid)];
    destruct (Hk r e He) as (e' & He' & Hid' & _); exists e';
    (split; [done | congruence]).
Qed.

Lemma keeps_detached e e' : keeps e e' → parentNode e = PNull → parentNode e' = PNull.
Proof. intros (_ & _ & [H|H] & _) Hp; congruence. Qed.

Lemma chosenBlockId_attribute c st X :
  dataset_blockId c st = str X → X ≠ "" → chosenBlockId c st = X.
Proof.
  intros H HX. unfold chosenBlockId. rewrite H. simpl.
  by destruct (String.eqb_spec X "").
Qed.

Section init_results.
Context (st : State) (c : nat).
Context (Hidle : timers st = []).
Context (Hc : getElementById "edsContentBlock" st = Some c).

Local Abbreviation blockId := (chosenBlockId c st).
Local Abbreviation captured := (capturedTargets st).
Local Abbreviation fetched := (resolvedData blockId).
Local Abbreviation loaded := (loadedPage blockId st).
Local Abbreviation rendered :=
  (run_reaction (ThenRenderCatch captured blockId) (Fulfilled fetched) loaded).

Lemma loaded_targets_ok : targets_ok captured loaded.
Proof. exact (getElementById_targets_ok st). Qed.

Lemma init_result (ms : nat) :
  (500 ≤ ms)%nat →
  heap (advance ms (init st)) = heap rendered ∧
  console (advance ms (init st)) = console rendered.
Proof using Hidle Hc. intros Hms. by rewrite (init_after st c Hidle Hc ms Hms). Qed.

Lemma rendered_normal :
  snd (renderContentBlock captured fetched loaded) = Normal →
  rendered = fst (renderContentBlock captured fetched loaded).
Proof. simpl. by destruct (renderContentBlock _ _ _) as [s []]. Qed.

Lemma rendered_threw :
  snd (renderContentBlock captured fetched loaded) = Threw TypeError →
  rendered =
    catchHandler captured blockId TypeError
      (fst (renderContentBlock captured fetched loaded)).
Proof. simpl. by destruct (renderContentBlock _ _ _) as [s [|[]]]. Qed.

(** The render of line 180 returns when the button is not a child of the
    title or of the description element. *)
Lemma loaded_returns :
  (truthy (buttonText fetched) = true →
   ∀ b e r, getElementById "blockButton" st = Some b → heap st !! b = Some e →
     parentNode e = PElement r →
     getElementById "blockTitle" st ≠ Some r ∧
     getElementById "blockDescription" st ≠ Some r) →
  snd (renderContentBlock captured fetched loaded) = Normal.
Proof.
  intros Hclear.
  destruct (getElementById "blockButton" st) as [b|] eqn:Hb.
  2:{ unfold renderContentBlock. by rewrite renderButton_none. }
  destruct (truthy (buttonText fetched)) eqn:Htext.
  2:{ unfold renderContentBlock. by rewrite (renderButton_falsy _ _ _ b). }
  destruct (getElementById_Some _ _ _ Hb) as (e & He & _ & Hdoc).
  apply (renderContentBlock_returns captured fetched loaded b e);
    [apply loaded_targets_ok | done | done | | |].
  - intros Hp. rewrite Hp in Hdoc. by destruct (length (heap st)).
  - intros t Ht Hp. by destruct (Hclear eq_refl b e t eq_refl He Hp).
  - intros d Hd Hp. by destruct (Hclear eq_refl b e d eq_refl He Hp).
Qed.

Lemma normal_title (ms : nat) t :
  snd (renderContentBlock captured fetched loaded) = Normal → (500 ≤ ms)%nat →
  getElementById "blockTitle" st = Some t →
  text_at (advance ms (init st)) t = Some (textOf (title fetched) defaultTitle).
Proof using Hidle Hc.
  intros Hn Hms Ht. unfold text_at. rewrite (proj1 (init_result ms Hms)), (rendered_normal Hn).
  exact (render_title_text captured fetched loaded loaded_targets_ok t Ht).
Qed.

Lemma normal_description (ms : nat) d :
  snd (renderContentBlock captured fetched loaded) = Normal → (500 ≤ ms)%nat →
  getElementById "blockDescription" st = Some d →
  text_at (advance ms (init st)) d =
    Some (textOf (description fetched) defaultDescription).
Proof using Hidle Hc.
  intros Hn Hms Hd. unfold text_at. rewrite (proj1 (init_result ms Hms)), (rendered_normal Hn).
  exact (render_description_text captured fetched loaded loaded_targets_ok d Hd).
Qed.

Lemma normal_hidden (ms : nat) b :
  truthy (buttonText fetched) = false → (500 ≤ ms)%nat →
  getElementById "blockButton" st = Some b →
  display <$> heap (advance ms (init st)) !! b = Some "none".
Proof using Hidle Hc.
  intros Hfalsy Hms Hb.
  assert (snd (renderContentBlock captured fetched loaded) = Normal) as Hn.
  { apply loaded_returns. intros H. congruence. }
  rewrite (proj1 (init_result ms Hms)), (rendered_normal Hn).
  destruct (getElementById_Some _ _ _ Hb) as (e & He & _).
  destruct (render_hidden_button captured fetched loaded loaded_targets_ok b e Hfalsy Hb He)
    as (e' & -> & Hfp).
  simpl. f_equal. by apply forget_parent_fields in Hfp as (_ & _ & _ & -> & _).
Qed.

Lemma normal_console (ms : nat) :
  snd (renderContentBlock captured fetched loaded) = Normal → (500 ≤ ms)%nat →
  console (advance ms (init st)) =
    console st ++ [fetchLog blockId] ++
      (if bool_decide (is_Some (getElementById "blockTitle" st)) && truthy (title fetched)
       then [] else [(LWarn, [titleWarning])]) ++
      (if bool_decide (is_Some (getElementById "blockDescription" st))
          && truthy (description fetched)
       then [] else [(LWarn, [descriptionWarning])]).
Proof using Hidle Hc.
  intros Hn Hms. rewrite (proj2 (init_result ms Hms)), (rendered_normal Hn).
  rewrite render_console. simpl. by rewrite <- !app_assoc.
Qed.
End init_results.

(** X9. The whole script on a page with the container, when the button
    is not a child of the title or of the description element: from
    500 ms after the load on, the title and the description elements show
    the fetched title and description (the default text where the fetched
    value is empty or absent); with a [buttonText] the button that took the
    place of the original one shows it, is visible and has the one click
    listener of this content, without one the button is hidden; and the
    console has gained the fetch message and the warnings of the render,
    and no error. *)
Theorem init_shows_fetched_content st c :
  timers st = [] →
  getElementById "edsContentBlock" st = Some c →
  let blockId := chosenBlockId c st in
  let data := resolvedData blockId in
  (truthy (buttonText data) = true →
   ∀ b e r, getElementById "blockButton" st = Some b → heap st !! b = Some e →
     parentNode e = PElement r →
     getElementById "blockTitle" st ≠ Some r ∧
     getElementById "blockDescription" st ≠ Some r) →
  ∀ ms : nat, (500 ≤ ms)%nat →
  let st' := advance ms (init st) in
  (∀ t, getElementById "blockTitle" st = Some t →
     text_at st' t = Some (textOf (title data) defaultTitle)) ∧
  (∀ d, getElementById "blockDescription" st = Some d →
     text_at st' d = Some (textOf (description data) defaultDescription)) ∧
  (∀ b e, getElementById "blockButton" st = Some b → heap st !! b = Some e →
     if truthy (buttonText data)
     then heap st' !! length (heap st) =
            Some (set_listeners [(Click, ClickHandler data)]
                    (set_disp "block" (set_text (ToString (buttonText data)) e)))
     else display <$> heap st' !! b = Some "none") ∧
  console st' =
    console st ++ [fetchLog blockId] ++
      (if bool_decide (is_Some (getElementById "blockTitle" st)) && truthy (title data)
       then [] else [(LWarn, [titleWarning])]) ++
      (if bool_decide (is_Some (getElementById "blockDescription" st))
          && truthy (description data)
       then [] else [(LWarn, [descriptionWarning])]).
Proof.
  intros Hidle Hc blockId data Hclear ms Hms st'.
  pose proof (loaded_returns st c Hclear) as Hn.
  split; [|split; [|split]].
  - intros t Ht. by apply (normal_title st c).
  - intros d Hd. by apply (normal_description st c).
  - intros b e Hb He. subst data blockId.
    set (blockId := chosenBlockId c st) in *. set (data := resolvedData blockId) in *.
    destruct (truthy (buttonText data)) eqn:Htext.
    2:{ by apply (normal_hidden st c). }
    unfold st'. rewrite (proj1 (init_result st c Hidle Hc ms Hms)).
    rewrite (rendered_normal st c Hn).
    destruct (getElementById_Some _ _ _ Hb) as (e0 & He0 & _ & Hdoc).
    assert (e0 = e) as -> by congruence.
    pose proof (loaded_targets_ok st c) as Hok.
    set (tg := capturedTargets st) in *.
    set (st2 := renderText (blockDescriptionElement tg) (description data)
                  descriptionWarning defaultDescription
                  (renderText (blockTitleElement tg) (title data)
                     titleWarning defaultTitle (loadedPage blockId st))).
    assert (heap st2 !! b = Some e) as He2.
    { apply renderText_frame; [|apply renderText_frame|]; try done.
      - intros H. by apply (targets_description_button tg _ Hok b b).
      - intros H. by apply (targets_title_button tg _ Hok b b).
      - intros t Ht Hp. by destruct (Hclear eq_refl b e t Hb He Hp).
      - intros d Hd Hp. by destruct (Hclear eq_refl b e d Hb He Hp). }
    unfold renderContentBlock in Hn |- *. fold st2 in Hn |- *.
    destruct (renderButton tg data st2) as [st1 o] eqn:Hr. simpl in Hn. subst o.
    destruct (renderButton_installs tg data st2 b st1 Hb Htext Hr)
      as (e2 & He2' & _ & _ & _ & Hnew).
    assert (e2 = e) as -> by congruence.
    unfold st2 in Hnew. rewrite !renderText_length in Hnew.
    match goal with |- heap ?X !! _ = _ =>
      change X with (fst (renderButton tg data st2)) end.
    rewrite Hr. exact Hnew.
  - by apply (normal_console st c).
Qed.

(** X10. A [data-block-id] that is no key of the mock content (and no
    property name of [Object.prototype]) never leads to the error path:
    whatever the page looks like, from 500 ms after the load on the title
    reads [Content Not Found (ID: <id>)], the description is the fixed
    text of line 158, the button is hidden, and the console has gained the
    fetch message only (and the warning for a target that the page does
    not have). *)
Theorem unknown_block_shows_not_found st c X :
  timers st = [] →
  getElementById "edsContentBlock" st = Some c →
  dataset_blockId c st = str X → X ≠ "" →
  mockContentData !! X = None → X ∉ ObjectPrototype →
  ∀ ms : nat, (500 ≤ ms)%nat →
  let st' := advance ms (init st) in
  (∀ t, getElementById "blockTitle" st = Some t →
     text_at st' t = Some ("Content Not Found (ID: " +:+ X +:+ ")")) ∧
  (∀ d, getElementById "blockDescription" st = Some d →
     text_at st' d = Some "The content for this specific block could not be loaded. Please verify the block ID and content source configuration.") ∧
  (∀ b, getElementById "blockButton" st = Some b →
     display <$> heap st' !! b = Some "none") ∧
  console st' =
    console st ++ [fetchLog X] ++
      (if bool_decide (is_Some (getElementById "blockTitle" st)) then []
       else [(LWarn, [titleWarning])]) ++
      (if bool_decide (is_Some (getElementById "blockDescription" st)) then []
       else [(LWarn, [descriptionWarning])]).
Proof.
  intros Hidle Hc Hattr HX Hkey Hproto ms Hms st'.
  pose proof (chosenBlockId_attribute c st X Hattr HX) as Hid.
  pose proof (resolvedData_fallback X Hkey Hproto) as Hdata.
  assert (truthy (buttonText (resolvedData (chosenBlockId c st))) = false) as Hfalsy.
  { by rewrite Hid, Hdata. }
  assert (snd (renderContentBlock (capturedTargets st)
                 (resolvedData (chosenBlockId c st))
                 (loadedPage (chosenBlockId c st) st)) = Normal) as Hn.
  { apply loaded_returns. intros H. congruence. }
  split; [|split; [|split]].
  - intros t Ht. unfold st'. rewrite (normal_title st c Hidle Hc ms t Hn Hms Ht).
    rewrite Hid, Hdata. simpl. unfold textOf. simpl. done.
  - intros d Hd. unfold st'. rewrite (normal_description st c Hidle Hc ms d Hn Hms Hd).
    by rewrite Hid, Hdata.
  - intros b Hb. by apply (normal_hidden st c).
  - unfold st'. rewrite (normal_console st c Hidle Hc ms Hn Hms).
    rewrite Hid, Hdata. simpl. by rewrite !andb_true_r.
Qed.

(** X11. On a page where the button is a child of the title or of the
    description element, content with a [buttonText] ends in the error
    path although the fetch succeeded: assigning the text removes the
    button from its parent, line 48 throws, and the handler of lines
    182-190 runs.  From 500 ms after the load on the title and the
    description show the error text, the button is hidden and out of the
    page, and the console has the fetch message, the warnings of the first
    render, the error of line 183 and the warnings of the error render. *)
Theorem button_inside_text_shows_error st c b e r :
  timers st = [] →
  getElementById "edsContentBlock" st = Some c →
  let blockId := chosenBlockId c st in
  let data := resolvedData blockId in
  truthy (buttonText data) = true →
  getElementById "blockButton" st = Some b → heap st !! b = Some e →
  parentNode e = PElement r →
  getElementById "blockTitle" st = Some r ∨
  getElementById "blockDescription" st = Some r →
  ∀ ms : nat, (500 ≤ ms)%nat →
  let st' := advance ms (init st) in
  (∀ t, getElementById "blockTitle" st = Some t →
     text_at st' t = Some "Error Loading Content") ∧
  (∀ d, getElementById "blockDescription" st = Some d →
     text_at st' d = Some "An unexpected error occurred while fetching the content for this block. Please contact support.") ∧
  (∃ e', heap st' !! b = Some e' ∧ display e' = "none" ∧ parentNode e' = PNull) ∧
  console st' =
    console st ++ [fetchLog blockId] ++
      (if bool_decide (is_Some (getElementById "blockTitle" st)) && truthy (title data)
       then [] else [(LWarn, [titleWarning])]) ++
      (if bool_decide (is_Some (getElementById "blockDescription" st))
          && truthy (description data)
       then [] else [(LWarn, [descriptionWarning])]) ++
      [fetchError blockId] ++
      (if bool_decide (is_Some (getElementById "blockTitle" st)) then []
       else [(LWarn, [titleWarning])]) ++
      (if bool_decide (is_Some (getElementById "blockDescription" st)) then []
       else [(LWarn, [descriptionWarning])]).
Proof.
  intros Hidle Hc blockId data Htext Hb He Hp Hr ms Hms st'.
  subst st' data blockId.
  set (blockId := chosenBlockId c st). set (data := resolvedData blockId) in *.
  set (tg := capturedTargets st).
  pose proof (loaded_targets_ok st c) as Hok. fold blockId tg in Hok.
  assert (parentNode e = PNull ∨
          (∃ t, blockTitleElement tg = Some t ∧ parentNode e = PElement t) ∨
          (∃ d, blockDescriptionElement tg = Some d ∧ parentNode e = PElement d))
    as Hcases.
  { right. destruct Hr as [Hr|Hr]; [left|right]; eauto. }
  pose proof (renderContentBlock_throws tg data (loadedPage blockId st) b e
                Hok Hb He Htext Hcases) as Hthrow.
  destruct (init_result st c Hidle Hc ms Hms) as [Hheap Hcons].
  rewrite (rendered_threw st c Hthrow) in Hheap, Hcons.
  fold blockId data tg in Hheap, Hcons.
  set (st1 := fst (renderContentBlock tg data (loadedPage blockId st))) in *.
  unfold catchHandler in Hheap, Hcons.
  set (s0 := console_error _ st1) in *.
  assert (heap_keeps (loadedPage blockId st) st1) as Hk1.
  { apply heap_keeps_renderContentBlock. }
  assert (targets_ok tg s0) as Hok0.
  { by apply (targets_ok_keeps tg (loadedPage blockId st) st1). }
  assert (∃ e1, heap s0 !! b = Some e1 ∧ parentNode e1 = PNull) as (e1 & He1 & Hp1).
  { pose proof (texts_detach_button tg data (loadedPage blockId st) b e
                  Hok Hb He Hcases) as H2.
    destruct (heap_keeps_renderButton tg data _ b _ H2) as (e1 & He1 & Hkeep).
    exists e1. split; [exact He1|]. by apply (keeps_detached _ _ Hkeep). }
  split; [|split; [|split]].
  - intros t Ht. unfold text_at. rewrite Hheap.
    exact (render_title_text tg errorPayload s0 Hok0 t Ht).
  - intros d Hd. unfold text_at. rewrite Hheap.
    exact (render_description_text tg errorPayload s0 Hok0 d Hd).
  - rewrite Hheap.
    destruct (render_hidden_button tg errorPayload s0 Hok0 b e1 eq_refl Hb He1)
      as (e' & He' & Hfp).
    exists e'. split; [exact He'|]. split.
    + by apply forget_parent_fields in Hfp as (_ & _ & _ & -> & _).
    + destruct (heap_keeps_renderContentBlock tg errorPayload s0 b e1 He1)
        as (e'' & He'' & Hkeep).
      assert (e'' = e') as -> by congruence.
      by apply (keeps_detached _ _ Hkeep).
  - rewrite Hcons, render_console. simpl. rewrite !andb_true_r.
    unfold st1. rewrite render_console. simpl. by rewrite <- !app_assoc.
Qed.

(** X12. A [data-block-id] that is a property name of [Object.prototype]
    ([constructor], [toString], [__proto__], ...) gives neither content
    nor the not-found text: the lookup of line 156 finds the inherited
    property, which has no [title], [description] or [buttonText], so from
    500 ms after the load on the page shows the two default texts, the
    button is hidden, and the console has the fetch message followed by
    one warning for each text the page has a target for. *)
Theorem inherited_name_shows_defaults st c X :
  timers st = [] →
  getElementById "edsContentBlock" st = Some c →
  dataset_blockId c st = str X → X ∈ ObjectPrototype →
  ∀ ms : nat, (500 ≤ ms)%nat →
  let st' := advance ms (init st) in
  (∀ t, getElementById "blockTitle" st = Some t → text_at st' t = Some defaultTitle) ∧
  (∀ d, getElementById "blockDescription" st = Some d →
     text_at st' d = Some defaultDescription) ∧
  (∀ b, getElementById "blockButton" st = Some b →
     display <$> heap st' !! b = Some "none") ∧
  console st' =
    console st ++ [fetchLog X; (LWarn, [titleWarning]); (LWarn, [descriptionWarning])].
Proof.
  intros Hidle Hc Hattr Hproto ms Hms st'.
  assert (X ≠ "") as HX.
  { intros ->. unfold ObjectPrototype in Hproto.
    rewrite !elem_of_cons, elem_of_nil in Hproto.
    repeat destruct Hproto as [Hproto|Hproto]; try discriminate Hproto. exact Hproto. }
  pose proof (chosenBlockId_attribute c st X Hattr HX) as Hid.
  pose proof (resolvedData_inherited X Hproto) as Hdata.
  assert (truthy (buttonText (resolvedData (chosenBlockId c st))) = false) as Hfalsy.
  { by rewrite Hid, Hdata. }
  assert (snd (renderContentBlock (capturedTargets st)
                 (resolvedData (chosenBlockId c st))
                 (loadedPage (chosenBlockId c st) st)) = Normal) as Hn.
  { apply loaded_returns. intros H. congruence. }
  split; [|split; [|split]].
  - intros t Ht. unfold st'. rewrite (normal_title st c Hidle Hc ms t Hn Hms Ht).
    by rewrite Hid, Hdata.
  - intros d Hd. unfold st'. rewrite (normal_description st c Hidle Hc ms d Hn Hms Hd).
    by rewrite Hid, Hdata.
  - intros b Hb. by apply (normal_hidden st c).
  - unfold st'. rewrite (normal_console st c Hidle Hc ms Hn Hms).
    rewrite Hid, Hdata. simpl. by rewrite !andb_false_r.
Qed.

(** ** The further properties at the sample pages *)

Lemma nestedTargets_ok blockId : targets_ok sampleTargets (nestedPage blockId).
Proof. repeat split; intros r [= <-]; eexists; split; reflexivity. Defined.

Lemma samplePage_parents blockId : parents_in_heap (samplePage blockId).
Proof.
  intros i e r He Hp.
  destruct i as [|[|[|[|[|[|i]]]]]]; simpl in He; simplify_eq;
    cbv in Hp; simplify_eq; simpl; lia.
Defined.

Lemma renderContentBlock_throws_iff_witness :
  let st := nestedPage None in
  let data := samplePayload "T" "Go" in
  targets_ok sampleTargets st ∧
  snd (renderContentBlock sampleTargets data st) = Threw TypeError.
Proof.
  intros st data. split; [apply nestedTargets_ok|].
  apply (renderContentBlock_throws_iff sampleTargets data st (nestedTargets_ok None)).
  exists 5, (sampleElement "blockButton" None (PElement 3)).
  split; [reflexivity|]. split; [reflexivity|]. split; [reflexivity|].
  right. left. exists 3. split; reflexivity.
Defined.

Lemma catchHandler_shows_error_witness :
  let st := samplePage None in
  let st' := catchHandler sampleTargets "contact-promo-block" TypeError st in
  targets_ok sampleTargets st ∧
  text_at st' 3 = Some "Error Loading Content" ∧
  display <$> heap st' !! 5 = Some "none".
Proof.
  intros st st'. split; [apply sampleTargets_ok|].
  destruct (catchHandler_shows_error sampleTargets "contact-promo-block" TypeError st
              (sampleTargets_ok None)) as (_ & Ht & _ & Hb & _).
  split; [exact (Ht 3 eq_refl) | exact (Hb 5 eq_refl)].
Defined.

Lemma init_timeline_witness :
  let st := samplePage (Some "contact-promo-block") in
  let blockId := chosenBlockId 2 st in
  let rendered :=
    run_reaction (ThenRenderCatch (capturedTargets st) blockId)
      (Fulfilled (resolvedData blockId)) (loadedPage blockId st) in
  (timers st = [] ∧ getElementById "edsContentBlock" st = Some 2) ∧
  advance 499 (init st) = with_now (now st + 499) (init st) ∧
  advance 500 (init st) = with_now (now st + 500) rendered.
Proof.
  intros st blockId rendered.
  assert (getElementById "edsContentBlock" st = Some 2) as Hc.
  { lazy. reflexivity. }
  split; [exact (conj eq_refl Hc)|].
  destruct (init_timeline st 2 eq_refl Hc) as (_ & Hbefore & Hafter & _).
  split; [apply (Hbefore 499); lia | apply (Hafter 500); lia].
Defined.

Lemma showTemporaryMessage_adds_one_witness :
  let st := samplePage None in
  (parents_in_heap st ∧ body st < length (heap st)) ∧
  ∀ message2,
    heap (showTemporaryMessage message2 (showTemporaryMessage "first" st)) =
      heap st ++ [messageBoxElement "first" (body st);
                  messageBoxElement message2 (body st)].
Proof.
  intros st.
  assert (body st < length (heap st)) as Hbody by (simpl; lia).
  split; [exact (conj (samplePage_parents None) Hbody)|].
  exact (proj2 (showTemporaryMessage_adds_one "first" st (samplePage_parents None) Hbody)).
Defined.

Lemma click_listener_effect_witness :
  let st := samplePage None in
  let data := Payload (mkPayload (str "T") (str "D") (str "Go") undefined) in
  parents_in_heap st ∧
  run_handler (ClickHandler data) st =
    mkState (heap st ++ [messageBoxElement (clickMessage data) (body st)])
      (body st) (location st)
      (console st ++
         (if truthy (buttonLink data)
          then [(LLog, ["Content Block: Navigating to:"; ToString (buttonLink data)])]
          else []))
      (now st)
      (timers st ++ [(now st + 10, FadeIn (length (heap st)));
                     (now st + 2000, FadeOut (length (heap st)))])
      (promises st).
Proof.
  intros st data. split; [apply samplePage_parents|].
  exact (click_listener_effect data st (samplePage_parents None)).
Defined.

Lemma samplePage_button_chain blockId :
  parent_chain (heap (samplePage blockId)) (PElement 2) [2; 1; 0].
Proof.
  eapply chain_element; [reflexivity|]. eapply chain_element; [reflexivity|].
  eapply chain_element; [reflexivity|]. apply chain_document.
Defined.

Lemma samplePage_one_button blockId r x :
  r ≠ 5 → heap (samplePage blockId) !! r = Some x → el_id x = "blockButton" →
  ¬ in_doc (samplePage blockId) r.
Proof.
  intros Hr Hx Hid.
  destruct r as [|[|[|[|[|[|r]]]]]]; simpl in Hx; simplify_eq; simpl in Hid;
    discriminate.
Defined.

Lemma sampleTargets_avoid r : r ∈ [2; 1; 0] → avoids sampleTargets r.
Proof.
  intros Hr. rewrite !elem_of_cons, elem_of_nil in Hr.
  destruct Hr as [->|[->|[->|[]]]]; repeat split; discriminate.
Defined.

Lemma render_puts_copy_in_document_witness :
  let st := samplePage None in
  let data := samplePayload "T" "Go" in
  let e := sampleElement "blockButton" None (PElement 2) in
  let st1 := fst (renderContentBlock sampleTargets data st) in
  let newButton := length (heap st) in
  let shown := set_disp "block" (set_text (ToString (buttonText data)) e) in
  (targets_ok sampleTargets st ∧ parents_in_heap st ∧
   blockButtonElement sampleTargets = Some 5 ∧ heap st !! 5 = Some e ∧
   parent_chain (heap st) (parentNode e) [2; 1; 0] ∧
   truthy (buttonText data) = true) ∧
  snd (renderContentBlock sampleTargets data st) = Normal ∧
  getElementById "blockButton" st1 = Some newButton ∧
  heap st1 !! newButton = Some (set_listeners [(Click, ClickHandler data)] shown) ∧
  heap st1 !! 5 = Some (set_parent PNull shown) ∧
  ¬ in_doc st1 5.
Proof.
  intros st data e st1 newButton shown.
  split.
  { exact (conj (sampleTargets_ok None)
             (conj (samplePage_parents None)
                (conj eq_refl (conj eq_refl (conj (samplePage_button_chain None) eq_refl))))). }
  exact (render_puts_copy_in_document sampleTargets data st 5 e [2; 1; 0]
           (sampleTargets_ok None) (samplePage_parents None) eq_refl eq_refl
           (samplePage_button_chain None) sampleTargets_avoid
           (samplePage_one_button None) eq_refl).
Defined.

Lemma hide_after_render_misses_button_witness :
  let st := samplePage None in
  let d1 := samplePayload "T" "A" in
  let d2 := Payload (mkPayload (str "T") (str "D") undefined undefined) in
  let e := sampleElement "blockButton" None (PElement 2) in
  let st1 := fst (renderContentBlock sampleTargets d1 st) in
  let st2 := fst (renderContentBlock sampleTargets d2 st1) in
  let newButton := length (heap st) in
  let shown := set_disp "block" (set_text (ToString (buttonText d1)) e) in
  (targets_ok sampleTargets st ∧ parents_in_heap st ∧
   blockButtonElement sampleTargets = Some 5 ∧ heap st !! 5 = Some e ∧
   parent_chain (heap st) (parentNode e) [2; 1; 0] ∧
   truthy (buttonText d1) = true ∧ truthy (buttonText d2) = false) ∧
  snd (renderContentBlock sampleTargets d1 st) = Normal ∧
  snd (renderContentBlock sampleTargets d2 st1) = Normal ∧
  getElementById "blockButton" st2 = Some newButton ∧
  heap st2 !! newButton = Some (set_listeners [(Click, ClickHandler d1)] shown) ∧
  heap st2 !! 5 = Some (set_parent PNull (set_disp "none" shown)) ∧
  ¬ in_doc st2 5.
Proof.
  intros st d1 d2 e st1 st2 newButton shown.
  split.
  { exact (conj (sampleTargets_ok None)
             (conj (samplePage_parents None)
                (conj eq_refl
                   (conj eq_refl
                      (conj (samplePage_button_chain None) (conj eq_refl eq_refl)))))). }
  exact (hide_after_render_misses_button sampleTargets d1 d2 st 5 e [2; 1; 0]
           (sampleTargets_ok None) (samplePage_parents None) eq_refl eq_refl
           (samplePage_button_chain None) sampleTargets_avoid
           (samplePage_one_button None) eq_refl eq_refl).
Defined.

Lemma render_without_buttonText_leaves_no_trace_witness :
  let st := samplePage None in
  let d1 := Payload (mkPayload (str "Important Update") (str "D") undefined undefined) in
  let d2 := samplePayload "T" "Go" in
  let first := fst (renderContentBlock sampleTargets d1 st) in
  truthy (buttonText d1) = false ∧
  heap (fst (renderContentBlock sampleTargets d2 first)) =
    heap (fst (renderContentBlock sampleTargets d2 st)) ∧
  snd (renderContentBlock sampleTargets d2 first) =
    snd (renderContentBlock sampleTargets d2 st).
Proof.
  intros st d1 d2 first. split; [reflexivity|].
  exact (render_without_buttonText_leaves_no_trace sampleTargets d1 d2 st eq_refl).
Defined.

Lemma samplePage_button_clear blockId b e r :
  getElementById "blockButton" (samplePage blockId) = Some b →
  heap (samplePage blockId) !! b = Some e → parentNode e = PElement r →
  getElementById "blockTitle" (samplePage blockId) ≠ Some r ∧
  getElementById "blockDescription" (samplePage blockId) ≠ Some r.
Proof.
  assert (getElementById "blockButton" (samplePage blockId) = Some 5) as ->.
  { lazy. reflexivity. }
  assert (getElementById "blockTitle" (samplePage blockId) = Some 3) as ->.
  { lazy. reflexivity. }
  assert (getElementById "blockDescription" (samplePage blockId) = Some 4) as ->.
  { lazy. reflexivity. }
  intros [= <-] He Hp. injection He as <-. injection Hp as <-.
  split; discriminate.
Defined.

Lemma init_shows_fetched_content_witness :
  let st := samplePage (Some "about-us-intro-block") in
  let blockId := chosenBlockId 2 st in
  let data := resolvedData blockId in
  let st' := advance 500 (init st) in
  (timers st = [] ∧ getElementById "edsContentBlock" st = Some 2 ∧
   getElementById "blockTitle" st = Some 3) ∧
  text_at st' 3 = Some (textOf (title data) defaultTitle).
Proof.
  intros st blockId data st'.
  assert (getElementById "edsContentBlock" st = Some 2) as Hc.
  { lazy. reflexivity. }
  assert (getElementById "blockTitle" st = Some 3) as Ht.
  { lazy. reflexivity. }
  split; [exact (conj eq_refl (conj Hc Ht))|].
  destruct (init_shows_fetched_content st 2 eq_refl Hc
              (λ _, samplePage_button_clear (Some "about-us-intro-block"))
              500 (le_n 500)) as (Htitle & _).
  exact (Htitle 3 Ht).
Defined.

Lemma unknown_block_shows_not_found_witness :
  let st := samplePage (Some "no-such-block") in
  let st' := advance 500 (init st) in
  (timers st = [] ∧ getElementById "edsContentBlock" st = Some 2 ∧
   dataset_blockId 2 st = str "no-such-block" ∧
   mockContentData !! "no-such-block" = None ∧
   ("no-such-block" ∉ ObjectPrototype) ∧
   getElementById "blockTitle" st = Some 3) ∧
  text_at st' 3 = Some ("Content Not Found (ID: " +:+ "no-such-block" +:+ ")").
Proof.
  intros st st'.
  assert (getElementById "edsContentBlock" st = Some 2) as Hc.
  { lazy. reflexivity. }
  assert (getElementById "blockTitle" st = Some 3) as Ht.
  { lazy. reflexivity. }
  assert (mockContentData !! "no-such-block" = None) as Hkey.
  { vm_compute. reflexivity. }
  assert ("no-such-block" ∉ ObjectPrototype) as Hproto.
  { unfold ObjectPrototype. rewrite !elem_of_cons, elem_of_nil.
    intros H. repeat destruct H as [H|H]; try discriminate H. exact H. }
  assert ("no-such-block" ≠ "") as Hne by discriminate.
  split; [exact (conj eq_refl (conj Hc (conj eq_refl (conj Hkey (conj Hproto Ht)))))|].
  destruct (unknown_block_shows_not_found st 2 "no-such-block" eq_refl Hc eq_refl
              Hne Hkey Hproto 500 (le_n 500)) as (Htitle & _).
  exact (Htitle 3 Ht).
Defined.

Lemma button_inside_text_shows_error_witness :
  let st := nestedPage (Some "contact-promo-block") in
  let e := sampleElement "blockButton" None (PElement 3) in
  let blockId := chosenBlockId 2 st in
  let data := resolvedData blockId in
  let st' := advance 500 (init st) in
  (timers st = [] ∧ getElementById "edsContentBlock" st = Some 2 ∧
   truthy (buttonText data) = true ∧
   getElementById "blockButton" st = Some 5 ∧ heap st !! 5 = Some e ∧
   parentNode e = PElement 3 ∧ getElementById "blockTitle" st = Some 3) ∧
  text_at st' 3 = Some "Error Loading Content" ∧
  ∃ e', heap st' !! 5 = Some e' ∧ display e' = "none" ∧ parentNode e' = PNull.
Proof.
  intros st e blockId data st'.
  assert (getElementById "edsContentBlock" st = Some 2) as Hc.
  { lazy. reflexivity. }
  assert (getElementById "blockTitle" st = Some 3) as Ht.
  { lazy. reflexivity. }
  assert (getElementById "blockButton" st = Some 5) as Hb.
  { lazy. reflexivity. }
  assert (truthy (buttonText data) = true) as Htext.
  { vm_compute. reflexivity. }
  split; [exact (conj eq_refl (conj Hc (conj Htext (conj Hb (conj eq_refl (conj eq_refl Ht))))))|].
  destruct (button_inside_text_shows_error st 2 5 e 3 eq_refl Hc Htext Hb eq_refl eq_refl
              (or_introl Ht) 500 (le_n 500)) as (Htitle & _ & Hbutton & _).
  exact (conj (Htitle 3 Ht) Hbutton).
Defined.

Lemma inherited_name_shows_defaults_witness :
  let st := samplePage (Some "toString") in
  let st' := advance 500 (init st) in
  (timers st = [] ∧ getElementById "edsContentBlock" st = Some 2 ∧
   dataset_blockId 2 st = str "toString" ∧ "toString" ∈ ObjectPrototype ∧
   getElementById "blockTitle" st = Some 3) ∧
  text_at st' 3 = Some defaultTitle ∧
  console st' =
    console st ++
      [fetchLog "toString"; (LWarn, [titleWarning]); (LWarn, [descriptionWarning])].
Proof.
  intros st st'.
  assert (getElementById "edsContentBlock" st = Some 2) as Hc.
  { lazy. reflexivity. }
  assert (getElementById "blockTitle" st = Some 3) as Ht.
  { lazy. reflexivity. }
  assert ("toString" ∈ ObjectPrototype) as Hproto.
  { unfold ObjectPrototype. rewrite !elem_of_cons. do 8 right. by left. }
  split; [exact (conj eq_refl (conj Hc (conj eq_refl (conj Hproto Ht))))|].
  destruct (inherited_name_shows_defaults st 2 "toString" eq_refl Hc eq_refl Hproto
              500 (le_n 500)) as (Htitle & _ & _ & Hconsole).
  exact (conj (Htitle 3 Ht) Hconsole).
Defined.
